(** * ai_validator.py: the evaluation pipeline, embedded and verified

    The development follows the source file top-down:
    - [Py]: the Python values the code manipulates (str as a list of code
      points, JSON values as json.loads builds them, exceptions);
    - [gather_files], [build_prompt], [verify_evidence], [validate_project]
      and the parsing block of the latter, translated from the source;
    - the properties of the specification, one theorem per claim. *)

From Stdlib Require Import Ascii String.
From Stdlib Require Import List ZArith NArith Lia Bool.
From Stdlib Require Import Sorting.Sorted Sorting.Permutation.
Import ListNotations.
Local Open Scope list_scope.
Set Warnings "-register-all".

(* ===================================================================== *)
(** * Python values *)
(* ===================================================================== *)

Module Py.

(** A Python [str] is a sequence of Unicode code points; [len], slicing and
    [index] count code points. *)
Definition char := N.
Definition str := list char.

Definition char_of_ascii (a : ascii) : char := N_of_ascii a.

(** Literals. Inside a literal the character [~] stands for the double
    quote (code point 34), which the source's literals contain. *)
Definition lit (s : string) : str :=
  map (fun a => if Ascii.eqb a "~"%char then 34%N else char_of_ascii a)
      (list_ascii_of_string s).
Arguments lit s%_string : simpl never.

Definition ch (a : ascii) : char := char_of_ascii a.
Arguments ch a%_char.

Fixpoint str_eqb (a b : str) : bool :=
  match a, b with
  | [], [] => true
  | x :: a', y :: b' => N.eqb x y && str_eqb a' b'
  | _, _ => false
  end.

Definition is_empty (s : str) : bool :=
  match s with [] => true | _ => false end.

(** [x in xs] for a tuple or set of strings. *)
Definition str_mem (x : str) (xs : list str) : bool := existsb (str_eqb x) xs.

(** ** Whitespace and [str.strip()]

    [str.strip()] without argument removes the characters for which
    [str.isspace()] holds: TAB..CR, FS..US, SPACE, NEL, NBSP and the Unicode
    space separators. *)
Definition is_space (c : char) : bool :=
  ((9 <=? c) && (c <=? 13) || (28 <=? c) && (c <=? 32)
   || (c =? 133) || (c =? 160) || (c =? 5760)
   || (8192 <=? c) && (c <=? 8202)
   || (c =? 8232) || (c =? 8233) || (c =? 8239) || (c =? 8287)
   || (c =? 12288))%N.

Fixpoint lstrip (s : str) : str :=
  match s with
  | c :: s' => if is_space c then lstrip s' else s
  | [] => []
  end.

Fixpoint rstrip (s : str) : str :=
  match s with
  | [] => []
  | c :: s' =>
      match rstrip s' with
      | [] => if is_space c then [] else [c]
      | t => c :: t
      end
  end.

Definition strip (s : str) : str := rstrip (lstrip s).

(** ** Searching and slicing *)

Fixpoint startswith (p s : str) : bool :=
  match p, s with
  | [], _ => true
  | x :: p', y :: s' => N.eqb x y && startswith p' s'
  | _ :: _, [] => false
  end.

Definition endswith (p s : str) : bool := startswith (rev p) (rev s).

(** [needle in hay] *)
Fixpoint contains (needle hay : str) : bool :=
  startswith needle hay
  || match hay with [] => false | _ :: t => contains needle t end.

(** [s.index(c)] for a one-character [c]: [None] stands for the ValueError
    the method raises when there is no occurrence. *)
Fixpoint index (c : char) (s : str) : option nat :=
  match s with
  | [] => None
  | x :: s' => if N.eqb x c then Some 0 else option_map S (index c s')
  end.

(** [s.rindex(c)]: position of the last occurrence. *)
Fixpoint rindex (c : char) (s : str) : option nat :=
  match s with
  | [] => None
  | x :: s' =>
      match rindex c s' with
      | Some i => Some (S i)
      | None => if N.eqb x c then Some 0 else None
      end
  end.

(** [s[a:b]] for non-negative [a] and [b]; empty when [b <= a]. *)
Definition slice (a b : nat) (s : str) : str := firstn (b - a) (skipn a s).

(** [len(s)], [s[:n]] and [s[-n:]] for a positive int [n]: the first and
    the last [n] characters (all of [s] when it is shorter). *)
Definition len (s : str) : Z := Z.of_nat (length s).
Definition first_chars (n : Z) (s : str) : str := firstn (Z.to_nat n) s.
Definition last_chars (n : Z) (s : str) : str :=
  skipn (length s - Z.to_nat n) s.

(** ** [str.replace(old, new)]

    Left to right, non-overlapping. [skip] counts the characters of a match
    still to be dropped. *)
Fixpoint replace_from (old new s : str) (skip : nat) : str :=
  match s with
  | [] => []
  | c :: rest =>
      match skip with
      | S k => replace_from old new rest k
      | O =>
          if startswith old s
          then new ++ replace_from old new rest (length old - 1)
          else c :: replace_from old new rest 0
      end
  end.

Definition replace (old new s : str) : str :=
  match old with
  | [] => new ++ flat_map (fun c => c :: new) s
  | _ => replace_from old new s 0
  end.

(** ** Lexicographic order on code points, the order of [str.__lt__] *)
Fixpoint str_compare (a b : str) : comparison :=
  match a, b with
  | [], [] => Eq
  | [], _ :: _ => Lt
  | _ :: _, [] => Gt
  | x :: a', y :: b' =>
      match N.compare x y with
      | Eq => str_compare a' b'
      | c => c
      end
  end.

Definition str_leb (a b : str) : bool :=
  match str_compare a b with Gt => false | _ => true end.

(** ** Exceptions *)
Inductive exn :=
| ValueError (msg : str)
| RuntimeError (msg : str)
| JSONDecodeError (msg : str)
| KeyError (key : str)
| IndexError
| AttributeError
| TypeError
| OSError
| Unsupported.   (* a library feature outside the modelled fragment *)

Inductive result (A : Type) :=
| Ok (a : A)
| Err (e : exn).
Arguments Ok {A} a.
Arguments Err {A} e.

Definition bind {A B} (r : result A) (k : A -> result B) : result B :=
  match r with Ok a => k a | Err e => Err e end.

(** [try: body except Exception: handler] *)
Definition try_except {A} (body : result A) (handler : exn -> result A)
  : result A :=
  match body with Ok a => Ok a | Err e => handler e end.

Fixpoint mapM {A B} (f : A -> result B) (l : list A) : result (list B) :=
  match l with
  | [] => Ok []
  | x :: l' =>
      bind (f x) (fun y => bind (mapM f l') (fun ys => Ok (y :: ys)))
  end.

(** ** JSON values, as [json.loads] builds them

    A dict is an association list in insertion order with pairwise distinct
    keys; the order decides which iteration step raises first. A float is
    kept as a decimal mantissa and exponent: the code only looks at its truth
    value, and NaN and the infinities count as any other non-zero float. *)
Inductive json :=
| JNull
| JBool (b : bool)
| JInt (n : Z)
| JFloat (mantissa exponent : Z)
| JStr (s : str)
| JArr (items : list json)
| JObj (fields : list (str * json)).

Definition dict := list (str * json).

(** [d.get(k)] without default: [None] when the key is absent. *)
Fixpoint dict_get (k : str) (d : dict) : option json :=
  match d with
  | [] => None
  | (k', v) :: d' => if str_eqb k k' then Some v else dict_get k d'
  end.

(** [d.get(k, default)] *)
Definition dict_get_default (k : str) (default : json) (d : dict) : json :=
  match dict_get k d with Some v => v | None => default end.

(** [d[k] = v]: an existing key keeps its position. *)
Fixpoint dict_set (k : str) (v : json) (d : dict) : dict :=
  match d with
  | [] => [(k, v)]
  | (k', v') :: d' =>
      if str_eqb k k' then (k, v) :: d' else (k', v') :: dict_set k v d'
  end.

(** Truth value of an object in a condition. *)
Definition truthy (v : json) : bool :=
  match v with
  | JNull => false
  | JBool b => b
  | JInt n => negb (Z.eqb n 0)
  | JFloat m _ => negb (Z.eqb m 0)
  | JStr s => negb (is_empty s)
  | JArr l => negb (match l with [] => true | _ => false end)
  | JObj d => negb (match d with [] => true | _ => false end)
  end.

(** [for x in v]: a list yields its items, a str its characters, a dict its
    keys; anything else is not iterable. *)
Definition iterate (v : json) : result (list json) :=
  match v with
  | JArr l => Ok l
  | JStr s => Ok (map (fun c => JStr [c]) s)
  | JObj d => Ok (map (fun kv => JStr (fst kv)) d)
  | _ => Err TypeError
  end.

(** ** [os.path] on POSIX *)

(** [os.path.join(a, b)] *)
Definition path_join (a b : str) : str :=
  if startswith [ch "/"] b then b
  else if is_empty a || endswith [ch "/"] a then a ++ b
  else a ++ [ch "/"] ++ b.

(** second component of [os.path.splitext(p)] *)
Definition splitext_ext (p : str) : str :=
  let filename_index :=
    match rindex (ch "/") p with Some i => S i | None => 0 end in
  match rindex (ch ".") p with
  | Some dot_index =>
      if (filename_index <=? dot_index)%nat
         && existsb (fun c => negb (N.eqb c (ch ".")))
                    (slice filename_index dot_index p)
      then skipn dot_index p
      else []
  | None => []
  end.

End Py.
Import Py.

Notation "x <- c ;; k" := (bind c (fun x => k))
  (at level 61, c at next level, right associativity).

(* ===================================================================== *)
(** * Library functions taken as parameters *)
(* ===================================================================== *)

(** The pipeline calls four library functions whose full behaviour is not
    reproduced here; every theorem holds whatever they compute.
    - [json_loads s]: [json.loads(s)]; [inl msg] when it raises an exception
      [e] with [str(e) = msg];
    - [json_dumps v]: [json.dumps(v, indent=2)];
    - [str_lower s]: [s.lower()];
    - [str_format t kw]: [t.format] applied to the str-valued keyword
      arguments [kw]. *)
Record pylib := {
  json_loads : str -> str + json;
  json_dumps : json -> str;
  str_lower : str -> str;
  str_format : str -> list (str * str) -> result str
}.

Definition nl : char := 10%N.

(* ===================================================================== *)
(** * File Selector: [gather_files] *)
(* ===================================================================== *)

(** A directory tree as [os.walk] sees it: entries in listing order. For a
    file, [getsize] and [file_text] are [None] when [os.path.getsize],
    respectively opening and reading the file as text, raises. A directory
    that cannot be listed or is a symbolic link is walked like an empty
    one. *)
Record file := {
  getsize : option Z;
  file_text : option str
}.

Inductive node :=
| File (f : file)
| Dir (entries : list (str * node)).

Record FileEntry := {
  path : str;
  content : str
}.

Definition SKIPPED_DIRS : list str :=
  [lit ".git"; lit "node_modules"; lit "venv"; lit "__pycache__"].

(** [os.path.relpath(os.path.join(root, fname), project_root)], with [rel]
    the path of [root] below the project root (empty for the root itself). *)
Definition rel_join (rel name : str) : str :=
  if is_empty rel then name else rel ++ [ch "/"] ++ name.

Definition files_in (entries : list (str * node)) : list (str * file) :=
  flat_map (fun e => match snd e with
                     | File f => [(fst e, f)]
                     | Dir _ => []
                     end) entries.

(** The [(root, files)] pairs of [os.walk(project_root)], top-down, after
    the pruning of [dirs] on line 34. *)
Fixpoint walk (rel : str) (n : node) {struct n}
  : list (str * list (str * file)) :=
  match n with
  | File _ => []
  | Dir entries =>
      (rel, files_in entries)
      :: flat_map (fun e => match snd e with
                            | Dir _ =>
                                if str_mem (fst e) SKIPPED_DIRS then []
                                else walk (rel_join rel (fst e)) (snd e)
                            | File _ => []
                            end) entries
  end.

Section Selector.

Variable L : pylib.
Variable include_exts : option (list str).
Variables max_files max_size_bytes : Z.

(** [not (include_exts and ext.lower() not in include_exts)]; an empty
    [include_exts] is turned into [None] on line 29. *)
Definition ext_allowed (fname : str) : bool :=
  match include_exts with
  | Some ((_ :: _) as exts) => str_mem (str_lower L (splitext_ext fname)) exts
  | _ => true
  end.

Definition full (collected : list FileEntry) : bool :=
  (max_files <=? Z.of_nat (length collected))%Z.

(** The inner loop over [files], lines 36-54. *)
Fixpoint scan_files (rel : str) (files : list (str * file))
    (collected : list FileEntry) : list FileEntry :=
  match files with
  | [] => collected
  | (fname, f) :: rest =>
      if full collected then collected                        (* break *)
      else if negb (ext_allowed fname)
      then scan_files rel rest collected                      (* continue *)
      else
        match getsize f with
        | None => scan_files rel rest collected               (* except *)
        | Some size =>
            if (max_size_bytes <? size)%Z
            then scan_files rel rest collected                (* continue *)
            else
              match file_text f with
              | None => scan_files rel rest collected         (* except *)
              | Some text =>
                  scan_files rel rest
                    (collected
                       ++ [{| path := rel_join rel fname; content := text |}])
              end
        end
  end.

(** The outer loop over the walk, lines 32-56. *)
Fixpoint scan_dirs (walked : list (str * list (str * file)))
    (collected : list FileEntry) : list FileEntry :=
  match walked with
  | [] => collected
  | (rel, files) :: rest =>
      let collected := scan_files rel files collected in
      if full collected then collected                        (* break *)
      else scan_dirs rest collected
  end.

(** [x['path'].lower().startswith('readme')] *)
Definition readme_path (e : FileEntry) : bool :=
  startswith (lit "readme") (str_lower L (path e)).

(** The sort key of line 59 and the order of Python tuples on it. *)
Definition readme_rank (e : FileEntry) : nat :=
  if readme_path e then 0 else 1.

Definition key_leb (a b : FileEntry) : bool :=
  (readme_rank a <? readme_rank b)%nat
  || ((readme_rank a =? readme_rank b)%nat && str_leb (path a) (path b)).

(** [list.sort(key=...)] is stable: insertion from the right puts an entry
    before the entries of equal key that followed it. *)
Fixpoint insert_entry (x : FileEntry) (l : list FileEntry) : list FileEntry :=
  match l with
  | [] => [x]
  | y :: l' => if key_leb x y then x :: l else y :: insert_entry x l'
  end.

Definition sort_entries (l : list FileEntry) : list FileEntry :=
  fold_right insert_entry [] l.

Definition gather_files (project_tree : node) : list FileEntry :=
  sort_entries (scan_dirs (walk [] project_tree) []).

End Selector.

(* ===================================================================== *)
(** * Prompt Builder: [build_prompt] *)
(* ===================================================================== *)

Definition PROMPT_TEMPLATE : str := lit "
You are an impartial automated code reviewer. You will be given:
1) a `criteria` JSON mapping evaluation categories to integer weights (sum may be 100).
2) a list of files in the candidate's repository (file path + file contents, limited).
3) the target role to evaluate: one of [~intern~, ~sde~, ~architect~].

Task:
- For each category in the criteria for the requested role, give the following in clear subtopics and points:
  - a numeric score from 0 to the category weight (same units as weights provided),
  - a concise written justification (2-3 sentences) clearly pointing out where it is missing or done well with an code snipet showing the expectation,
  - zero or more evidence items: each evidence item must reference a file path and (if applicable) a short quoted code snippet or line-range and explanation.
- Produce a final `total_score` (sum of category scores).
- Provide a short `overall_summary` (2-3 sentences) and a list of `suggested_actions` (3-6 actionable improvements).
- STRICTLY return a single JSON object (no extra commentary). The keys must be:
  {
    ~role~: ~<role>~,
    ~criteria_scores~: {
       ~<category>~: {~score~: <number>, ~justification~: ~<text>~, ~evidence~: [{~path~:~...~,~snippet~:~...~,~note~:~...~} , ...] },
       ...
    },
    ~total_score~: <number>,
    ~overall_summary~: ~<text>~,
    ~suggested_actions~: [~...~,~...~]
  }

Important constraints for the model:
- Do not hallucinate file names or snippets. Only cite evidence found in the provided file list.
- If a category cannot be judged from the given files, give a conservative mid/low score and say ~insufficient evidence~ in justification.
- Keep each justification short (<=70 words).
- Keep JSON strictly valid.

Now evaluate. Here are the inputs:

CRITERIA_JSON:
{criteria_json}

ROLE:
{role}

FILES:
{files_dump}
".

Definition SNIPPED_MIDDLE : str :=
  [nl; nl] ++ lit "...<<SNIPPED MIDDLE>>..." ++ [nl; nl].

Definition FENCE : str := lit "```".

(** The replacement of line 116: backticks separated by U+200B. *)
Definition ESCAPED_FENCE : str := [96; 8203; 96; 8203; 96]%N.

(** Lines 112-114. *)
Definition truncate_middle (content : str) : str :=
  if (6000 <? len content)%Z
  then first_chars 3000 content ++ SNIPPED_MIDDLE ++ last_chars 3000 content
  else content.

(** Line 116. *)
Definition escape_fences (content : str) : str :=
  replace FENCE ESCAPED_FENCE content.

(** Line 117: [f"---FILE: {f['path']}---\n{content}\n"]. *)
Definition file_block (f : FileEntry) (content : str) : str :=
  lit "---FILE: " ++ path f ++ lit "---" ++ [nl] ++ content ++ [nl].

(** Lines 111-117: the block appended to [limited_dump] for one entry. *)
Definition render_block (f : FileEntry) : str :=
  let content := truncate_middle (content f) in
  let content := escape_fences content in
  file_block f content.

(** [sep.join(parts)] *)
Fixpoint join (sep : str) (parts : list str) : str :=
  match parts with
  | [] => []
  | [p] => p
  | p :: rest => p ++ sep ++ join sep rest
  end.

(** The loop of lines 109-117 over the list object [file_entries], which
    is the store [entries]: the iterator reads position [i] of the live list,
    the body reads the two fields of the entry and writes nothing. [n] bounds
    the number of iterations. *)
Fixpoint dump_files (n i : nat) (limited_dump : list str)
    (entries : list FileEntry) : list FileEntry * list str :=
  match n with
  | O => (entries, limited_dump)
  | S n' =>
      match nth_error entries i with
      | None => (entries, limited_dump)
      | Some f =>
          dump_files n' (S i) (limited_dump ++ [render_block f]) entries
      end
  end.

(** [build_prompt] returns the state of [file_entries] after the call
    together with the prompt or the exception raised. *)
Definition build_prompt (L : pylib) (criteria : json) (role : str)
    (file_entries : list FileEntry) : list FileEntry * result str :=
  let (file_entries, limited_dump) :=
    dump_files (length file_entries) 0 [] file_entries in
  let files_dump := join [nl] limited_dump in
  (file_entries,
   prompt <- str_format L PROMPT_TEMPLATE
               [(lit "criteria_json", json_dumps L criteria);
                (lit "role", role);
                (lit "files_dump", files_dump)] ;;
   Ok (first_chars 900000 prompt)).

(* ===================================================================== *)
(** * Evidence Verifier: [verify_evidence] *)
(* ===================================================================== *)

(** What the verifier asks of the file system. [read_text p = None] when
    opening or reading [p] raises; decoding itself never fails
    ([errors='replace']). *)
Record filesystem := {
  isfile : str -> bool;
  read_text : str -> option str
}.

Definition NOT_FOUND : str := lit " [EVIDENCE NOT FOUND]".

(** [v + s] for a str [s]: only a str can be concatenated with a str. *)
Definition add_str (v : json) (s : str) : result str :=
  match v with
  | JStr n => Ok (n ++ s)
  | _ => Err TypeError
  end.

(** [snippet.strip() and snippet.strip() in text] *)
Definition snippet_in (snippet : json) (text : str) : result bool :=
  match snippet with
  | JStr s => Ok (negb (is_empty (strip s)) && contains (strip s) text)
  | _ => Err AttributeError
  end.

(** Line 152: [os.path.join(project_root, path) if path else None]. *)
Definition full_path (project_root : str) (path : json)
  : result (option str) :=
  if truthy path
  then match path with
       | JStr p => Ok (Some (path_join project_root p))
       | _ => Err TypeError
       end
  else Ok None.

(** Lines 153-161: the value of [verified] after the guarded read. *)
Definition check_snippet (fs : filesystem) (fullpath : option str)
    (snippet : json) : bool :=
  match fullpath with
  | Some fp =>
      if negb (is_empty fp) && isfile fs fp
      then
        match
          try_except
            (match read_text fs fp with
             | Some text => snippet_in snippet text
             | None => Err OSError
             end)
            (fun _ => Ok false)
        with
        | Ok b => b
        | Err _ => false
        end
      else false
  | None => false
  end.

(** Lines 162-165: the annotated copy of the item. *)
Definition mark_copy (d : dict) (verified : bool) : result json :=
  let ev_copy := dict_set (lit "verified") (JBool verified) d in
  if verified then Ok (JObj ev_copy)
  else
    note <- add_str (dict_get_default (lit "note") (JStr []) ev_copy)
                    NOT_FOUND ;;
    Ok (JObj (dict_set (lit "note") (JStr (strip note)) ev_copy)).

(** The body of the inner loop, lines 149-166: from [ev] to [ev_copy]. *)
Definition verify_item (fs : filesystem) (project_root : str) (ev : json)
  : result json :=
  match ev with
  | JObj d =>
      let path := dict_get_default (lit "path") JNull d in
      let snippet := dict_get_default (lit "snippet") (JStr []) d in
      fullpath <- full_path project_root path ;;
      mark_copy d (check_snippet fs fullpath snippet)
  | _ => Err AttributeError
  end.

(** One step of the outer loop: [criteria_scores[cat]['evidence'] = new_evs]
    updates the dict [details] in place. *)
Definition verify_category (fs : filesystem) (project_root : str)
    (entry : str * json) : result (str * json) :=
  let (cat, details) := entry in
  match details with
  | JObj d =>
      evs <- iterate (dict_get_default (lit "evidence") (JArr []) d) ;;
      new_evs <- mapM (verify_item fs project_root) evs ;;
      Ok (cat, JObj (dict_set (lit "evidence") (JArr new_evs) d))
  | _ => Err AttributeError
  end.

(** [verify_evidence] mutates [report] in place and returns it: the result
    is the state of that one object after the call. *)
Definition verify_evidence (fs : filesystem) (project_root : str)
    (report : json) : result json :=
  match report with
  | JObj r =>
      match dict_get_default (lit "criteria_scores") (JObj []) r with
      | JObj criteria_scores =>
          scores' <- mapM (verify_category fs project_root) criteria_scores ;;
          Ok (JObj (dict_set (lit "criteria_scores") (JObj scores') r))
      | _ => Err AttributeError
      end
  | _ => Err AttributeError
  end.

(* ===================================================================== *)
(** * Response Parser and Pipeline Orchestrator: [validate_project] *)
(* ===================================================================== *)

Definition loads (L : pylib) (s : str) : result json :=
  match json_loads L s with
  | inl msg => Err (JSONDecodeError msg)
  | inr v => Ok v
  end.

(** Lines 185-187: [None] when [index] or [rindex] raises ValueError. *)
Definition bracket_slice (text : str) : option str :=
  match index (ch "{") text with
  | None => None
  | Some json_start =>
      match rindex (ch "}") text with
      | None => None
      | Some i => Some (slice json_start (i + 1) text)
      end
  end.

Definition parse_failure (text msg : str) : exn :=
  RuntimeError
    (lit "Failed to parse JSON from model output. Raw output first 2000 chars:"
     ++ [nl] ++ first_chars 2000 text ++ [nl; nl] ++ lit "Error:" ++ msg).

(** Lines 182-194. *)
Definition parse_response (L : pylib) (raw : str) : result json :=
  let text := strip raw in
  try_except
    (match bracket_slice text with
     | Some json_text => loads L json_text
     | None => Err (ValueError (lit "substring not found"))
     end)
    (fun _ =>
       match json_loads L text with
       | inr result => Ok result
       | inl e => Err (parse_failure text e)
       end).

(** The value [validate_project] returns. *)
Record outcome := {
  raw : str;
  result_ : json;
  files_sent_count : nat
}.

(** Lines 182-202, everything after the model call. [verify_evidence]
    works on the object [result] itself: after line 196 the names [result]
    and [verified_report] denote one and the same dict, in the state the
    verifier left it in, and that object is returned under ["result"]. *)
Definition parse_and_verify (L : pylib) (fs : filesystem)
    (project_root raw : str) (files : list FileEntry) : result outcome :=
  result <- parse_response L raw ;;
  result <- verify_evidence fs project_root result ;;
  Ok {| raw := raw;
        result_ := result;
        files_sent_count := length files |}.

(** The environment of one run. [criteria_text p] is the text of
    [open(p, 'r', encoding='utf-8')], [None] when opening or reading raises;
    [call_gemini prompt] is the text the function returns, or the exception it
    raises; a response without text is not considered. *)
Record world := {
  criteria_text : str -> option str;
  project_tree : str -> node;
  project_files : filesystem;
  call_gemini : str -> result str
}.

Inductive event :=
| CriteriaRead (path : str)
| ProjectIO (project_root : str)
| ModelCall (prompt : str).

(** An action: the events performed, in order, and how it ended. *)
Definition io (A : Type) : Type := list event * result A.

Definition io_bind {A B} (m : io A) (k : A -> io B) : io B :=
  match m with
  | (t, Ok a) => let (t', r) := k a in (t ++ t', r)
  | (t, Err e) => (t, Err e)
  end.

Definition perform {A} (e : event) (r : result A) : io A := ([e], r).
Definition silent {A} (r : result A) : io A := ([], r).

Notation "x <~ c ;; k" := (io_bind c (fun x => k))
  (at level 61, c at next level, right associativity).

Definition read_criteria (L : pylib) (w : world) (path : str) : result json :=
  match criteria_text w path with
  | Some text => loads L text
  | None => Err OSError
  end.

Definition ROLES : list str := [lit "intern"; lit "sde"; lit "architect"].

Definition INCLUDE_EXTS : list str :=
  [lit ".py"; lit ".md"; lit ".txt"; lit ".json"; lit ".yml"; lit ".yaml";
   lit ".js"; lit ".java"; lit ".go"].

Definition validate_project (L : pylib) (w : world)
    (project_root criteria_path role : str) : io outcome :=
  if negb (str_mem role ROLES)
  then silent (Err (ValueError
                      (lit "role must be one of: intern, sde, architect")))
  else
    criteria <~ perform (CriteriaRead criteria_path)
                        (read_criteria L w criteria_path) ;;
    files <~ perform (ProjectIO project_root)
                     (Ok (gather_files L (Some INCLUDE_EXTS) 80 200000
                            (project_tree w project_root))) ;;
    let (files, prompt) := build_prompt L criteria role files in
    prompt <~ silent prompt ;;
    raw <~ perform (ModelCall prompt) (call_gemini w prompt) ;;
    result <~ silent (parse_response L raw) ;;
    result <~ perform (ProjectIO project_root)
                (verify_evidence (project_files w) project_root result) ;;
    silent (Ok {| raw := raw;
                  result_ := result;
                  files_sent_count := length files |}).

(* ===================================================================== *)
(** * The properties in the specification's words *)
(* ===================================================================== *)

(** ** Evidence Verifier *)

Definition str_or_absent (k : str) (d : dict) : bool :=
  match dict_get k d with
  | None | Some (JStr _) => true
  | _ => false
  end.

(** An EvidenceItem: a dict whose path, snippet and note, where present,
    are strings. *)
Definition item_shape (ev : json) : bool :=
  match ev with
  | JObj d =>
      str_or_absent (lit "path") d && str_or_absent (lit "snippet") d
      && str_or_absent (lit "note") d
  | _ => false
  end.

Definition category_shape (entry : str * json) : bool :=
  match snd entry with
  | JObj d =>
      match dict_get (lit "evidence") d with
      | None => true
      | Some (JArr evs) => forallb item_shape evs
      | _ => false
      end
  | _ => false
  end.

(** A Report whose categories are CategoryResults with EvidenceItems. *)
Definition report_shape (report : json) : bool :=
  match report with
  | JObj r =>
      match dict_get (lit "criteria_scores") r with
      | None => true
      | Some (JObj cs) => forallb category_shape cs
      | _ => false
      end
  | _ => false
  end.

(** The category entries of a report and the evidence list of a category. *)
Definition categories (report : json) : dict :=
  match report with
  | JObj r =>
      match dict_get (lit "criteria_scores") r with
      | Some (JObj cs) => cs
      | _ => []
      end
  | _ => []
  end.

Definition evidence_of (details : json) : list json :=
  match details with
  | JObj d =>
      match dict_get (lit "evidence") d with
      | Some (JArr evs) => evs
      | _ => []
      end
  | _ => []
  end.

Definition note_text (d : dict) : str :=
  match dict_get (lit "note") d with Some (JStr n) => n | _ => [] end.

(** Spec: the cited path resolves to an existing file, and the trimmed
    snippet is non-empty and a literal substring of that file's text. *)
Definition evidence_found (fs : filesystem) (project_root : str) (d : dict)
  : bool :=
  match dict_get (lit "path") d, dict_get (lit "snippet") d with
  | Some (JStr p), Some (JStr s) =>
      negb (is_empty p) && isfile fs (path_join project_root p)
      && match read_text fs (path_join project_root p) with
         | Some text => negb (is_empty (strip s)) && contains (strip s) text
         | None => false
         end
  | _, _ => false
  end.

Definition MARKER : str := lit "[EVIDENCE NOT FOUND]".

(** What the verifier makes of a well-shaped item: [verified] is the
    verdict; an unverified item gets the marker after its note, the whole
    stripped. *)
Definition annotate_item (fs : filesystem) (project_root : str) (d : dict)
  : dict :=
  if evidence_found fs project_root d
  then dict_set (lit "verified") (JBool true) d
  else dict_set (lit "note") (JStr (strip (note_text d ++ NOT_FOUND)))
         (dict_set (lit "verified") (JBool false) d).

Definition annotate (fs : filesystem) (project_root : str) (ev : json)
  : json :=
  match ev with
  | JObj d => JObj (annotate_item fs project_root d)
  | _ => ev
  end.

(** Two reports have the same categories in the same order, and the items
    of each evidence list are related by [R], position by position. *)
Definition items_related (R : json -> json -> Prop) (report report' : json)
  : Prop :=
  Forall2 (fun e e' : str * json =>
             fst e = fst e'
             /\ Forall2 R (evidence_of (snd e)) (evidence_of (snd e')))
          (categories report) (categories report').

(** The annotation of one item as the verifier performs it: the note of an
    unverified item is its old note without leading white space, a space
    unless nothing is left of the note, and the marker. *)
Definition annotated (fs : filesystem) (project_root : str) (ev ev' : json)
  : Prop :=
  exists d,
    ev = JObj d /\
    if evidence_found fs project_root d
    then ev' = JObj (dict_set (lit "verified") (JBool true) d)
    else ev' = JObj (dict_set (lit "note")
                       (JStr (lstrip (note_text d ++ [32%N]) ++ MARKER))
                       (dict_set (lit "verified") (JBool false) d)).

(** The annotation as the specification words it: the marker comes after
    the whole of the existing note. *)
Definition annotated_keeping_note (fs : filesystem) (project_root : str)
    (ev ev' : json) : Prop :=
  exists d d',
    ev = JObj d /\ ev' = JObj d' /\
    if evidence_found fs project_root d
    then dict_get (lit "verified") d' = Some (JBool true)
    else dict_get (lit "verified") d' = Some (JBool false)
         /\ exists note',
              dict_get (lit "note") d' = Some (JStr note')
              /\ startswith (note_text d) note' = true
              /\ endswith MARKER note' = true.

Definition key_missing (k : str) (d : dict) : Prop := dict_get k d = None.

(** An item that cites no file or no snippet. *)
Definition cites_nothing (d : dict) : Prop :=
  key_missing (lit "path") d \/ dict_get (lit "path") d = Some (JStr [])
  \/ key_missing (lit "snippet") d.

(** The treatment of items with missing keys, as the verifier performs it:
    without path or snippet the item is unverified and marked, a missing
    note counting as the empty string; without note the item is verified
    like any other and, when unverified, its note is the marker. *)
Definition missing_keys_handled (fs : filesystem) (project_root : str)
    (ev ev' : json) : Prop :=
  exists d,
    ev = JObj d
    /\ (cites_nothing d ->
        ev' = JObj (dict_set (lit "note")
                      (JStr (strip (note_text d ++ NOT_FOUND)))
                      (dict_set (lit "verified") (JBool false) d)))
    /\ (key_missing (lit "note") d ->
        ev' = JObj (if evidence_found fs project_root d
                    then dict_set (lit "verified") (JBool true) d
                    else dict_set (lit "note") (JStr MARKER)
                           (dict_set (lit "verified") (JBool false) d))).

(** The treatment as the claim words it: any of the three keys missing makes
    the item unverified and marked. *)
Definition missing_keys_unverified (ev ev' : json) : Prop :=
  exists d d',
    ev = JObj d /\ ev' = JObj d' /\
    (cites_nothing d \/ key_missing (lit "note") d ->
     dict_get (lit "verified") d' = Some (JBool false)
     /\ exists note',
          dict_get (lit "note") d' = Some (JStr note')
          /\ endswith MARKER note' = true).

(** ** File Selector *)

(** Every file of a tree with its path below the root, pruned or not. *)
Fixpoint tree_files (rel : str) (n : node) {struct n} : list (str * file) :=
  match n with
  | File _ => []
  | Dir entries =>
      flat_map (fun e => match snd e with
                         | File f => [(rel_join rel (fst e), f)]
                         | Dir _ => tree_files (rel_join rel (fst e)) (snd e)
                         end) entries
  end.

(** An entry of the selection is the path and the text of one of [files],
    whose size on disk is within the ceiling. *)
Definition read_from (max_size_bytes : Z) (files : list (str * file))
    (e : FileEntry) : Prop :=
  exists f size,
    In (path e, f) files /\ getsize f = Some size
    /\ (size <= max_size_bytes)%Z /\ file_text f = Some (content e).

(** The order of the specification: the entries whose file name starts
    with "readme", whatever the case, come before all the others. *)
Definition basename (p : str) : str :=
  match rindex (ch "/") p with
  | Some i => skipn (S i) p
  | None => p
  end.

Definition readme_named (L : pylib) (e : FileEntry) : bool :=
  startswith (lit "readme") (str_lower L (basename (path e))).

Definition readme_named_first (L : pylib) (out : list FileEntry) : Prop :=
  forall i j a b,
    nth_error out i = Some a -> nth_error out j = Some b ->
    readme_named L a = true -> readme_named L b = false ->
    i < j.

(** ** Response Parser and returned report *)


(** An item of a returned report carries a boolean [verified]; so does
    every item of every category of a report. *)
Definition has_verified (ev : json) : Prop :=
  exists d b, ev = JObj d /\ dict_get (lit "verified") d = Some (JBool b).

(** The flag of a returned item is the one the Verifier computed from the
    parsed item, whether or not the model had supplied a [verified] of its
    own. *)
Definition set_by_verifier (fs : filesystem) (project_root : str)
    (ev ev' : json) : Prop :=
  exists d d' fullpath,
    ev = JObj d /\ ev' = JObj d'
    /\ full_path project_root (dict_get_default (lit "path") JNull d)
       = Ok fullpath
    /\ dict_get (lit "verified") d'
       = Some (JBool (check_snippet fs fullpath
                        (dict_get_default (lit "snippet") (JStr []) d))).

(** The specification's words for the report before the Verifier runs:
    no item of any evidence list holds a [verified] key. *)
Definition verified_absent (report : json) : Prop :=
  forall cat details d,
    In (cat, details) (categories report) ->
    In (JObj d) (evidence_of details) ->
    dict_get (lit "verified") d = None.

Definition all_verified (report : json) : Prop :=
  forall cat details,
    In (cat, details) (categories report) ->
    exists d evs,
      details = JObj d /\ dict_get (lit "evidence") d = Some (JArr evs)
      /\ Forall has_verified evs.

(* ===================================================================== *)
(** * A reference instance of the library functions *)
(* ===================================================================== *)

(** Executable versions of the four library functions, used to run the
    pipeline on concrete inputs. They follow CPython 3.11 with its default
    settings on the fragment they cover: case mapping of code points below
    U+0100, format strings without conversions or format specifications,
    JSON nested to any depth (CPython raises RecursionError at a depth that
    depends on the stack of the interpreter). A float is kept as the decimal
    it was written as, its mantissa 0 when the double it denotes is zero,
    and is printed as mantissa and exponent. *)
Module Ref.

(** ** Decimal numerals *)

Fixpoint digits_of (fuel : nat) (n : N) (acc : str) : str :=
  match fuel with
  | O => acc
  | S fuel' =>
      let acc := (48 + n mod 10)%N :: acc in
      if (n <? 10)%N then acc else digits_of fuel' (n / 10) acc
  end.

Definition decimal (z : Z) : str :=
  let n := Z.abs_N z in
  (if (z <? 0)%Z then [ch "-"] else [])
  ++ digits_of (S (N.to_nat (N.log2 n))) n [].

(** ** [json.loads] on a [str]

    [decode] and [raw_decode] of json/decoder.py over the scanner of
    _json.c: the same values, the same exceptions with the same messages.
    The functions work on what is left of the document; a position in the
    document is kept as the number of characters from there to the end. *)

(** Why decoding stopped: [JSONDecodeError(msg, doc, pos)], or another
    exception, given by its message. *)
Inductive failure :=
| At (msg : str) (remaining : nat)
| Other (msg : str).

Definition EXPECTING_VALUE : str := lit "Expecting value".
Definition EXTRA_DATA : str := lit "Extra data".
Definition UNEXPECTED_BOM : str :=
  lit "Unexpected UTF-8 BOM (decode using utf-8-sig)".
Definition UNTERMINATED_STRING : str := lit "Unterminated string starting at".
Definition INVALID_CONTROL : str := lit "Invalid control character at".
Definition INVALID_ESCAPE : str := lit "Invalid \escape".
Definition INVALID_U_ESCAPE : str := lit "Invalid \uXXXX escape".
Definition EXPECTING_NAME : str :=
  lit "Expecting property name enclosed in double quotes".
Definition EXPECTING_COLON : str := lit "Expecting ':' delimiter".
Definition EXPECTING_COMMA : str := lit "Expecting ',' delimiter".

(** [str(JSONDecodeError(msg, doc, pos))]: the message, the line, the
    column and the index of the position. *)
Definition message (doc : str) (f : failure) : str :=
  match f with
  | Other msg => msg
  | At msg remaining =>
      let pos := (length doc - remaining)%nat in
      let before := firstn pos doc in
      let lineno := S (length (filter (N.eqb nl) before)) in
      let colno :=
        match rindex nl before with
        | Some i => (pos - i)%nat
        | None => S pos
        end in
      msg ++ lit ": line " ++ decimal (Z.of_nat lineno)
      ++ lit " column " ++ decimal (Z.of_nat colno)
      ++ lit " (char " ++ decimal (Z.of_nat pos) ++ lit ")"
  end.

Definition json_ws (c : char) : bool :=
  ((c =? 32) || (c =? 9) || (c =? 10) || (c =? 13))%N.

Fixpoint skip_ws (s : str) : str :=
  match s with
  | c :: s' => if json_ws c then skip_ws s' else s
  | [] => []
  end.

Definition is_digit (c : char) : bool := ((48 <=? c) && (c <=? 57))%N.

(** *** Strings *)

Definition unescape (c : char) : option char :=
  if (c =? 34)%N then Some 34%N
  else if (c =? 92)%N then Some 92%N
  else if (c =? 47)%N then Some 47%N
  else if N.eqb c (ch "b") then Some 8%N
  else if N.eqb c (ch "f") then Some 12%N
  else if N.eqb c (ch "n") then Some 10%N
  else if N.eqb c (ch "r") then Some 13%N
  else if N.eqb c (ch "t") then Some 9%N
  else None.

Definition hex_value (c : char) : option N :=
  if is_digit c then Some (c - 48)%N
  else if ((97 <=? c) && (c <=? 102))%N then Some (c - 87)%N
  else if ((65 <=? c) && (c <=? 70))%N then Some (c - 55)%N
  else None.

Definition hex4 (a b c d : char) : option N :=
  match hex_value a, hex_value b, hex_value c, hex_value d with
  | Some w, Some x, Some y, Some z =>
      Some (((w * 16 + x) * 16 + y) * 16 + z)%N
  | _, _, _, _ => None
  end.

Definition high_surrogate (c : N) : bool := ((55296 <=? c) && (c <=? 56319))%N.
Definition low_surrogate (c : N) : bool := ((56320 <=? c) && (c <=? 57343))%N.
Definition join_surrogates (c c2 : N) : N :=
  (65536 + (c - 55296) * 1024 + (c2 - 56320))%N.

(** [scanstring_unicode] in strict mode: the characters of a string after
    its opening quote, which is [begin] characters from the end. An escape
    [\uXXXX] needs a character after its four digits; a high surrogate is
    joined with a low one that follows as an escape when more than six
    characters follow the first escape. *)
Fixpoint scan_string (begin : nat) (s acc : str) {struct s}
  : failure + (str * str) :=
  match s with
  | [] => inl (At UNTERMINATED_STRING begin)
  | c :: s1 =>
      if (c =? 34)%N then inr (rev acc, s1)
      else if (c =? 92)%N then
        match s1 with
        | [] => inl (At UNTERMINATED_STRING begin)
        | e :: s2 =>
            if N.eqb e (ch "u") then
              match s2 with
              | h1 :: h2 :: h3 :: h4 :: s3 =>
                  match s3 with
                  | [] => inl (At INVALID_U_ESCAPE (length s1))
                  | _ :: _ =>
                      match hex4 h1 h2 h3 h4 with
                      | None => inl (At INVALID_U_ESCAPE (length s1))
                      | Some x =>
                          match s3 with
                          | b :: u :: g1 :: g2 :: g3 :: g4 :: s4 =>
                              if high_surrogate x
                                 && (6 <? length s3)%nat
                                 && (b =? 92)%N && N.eqb u (ch "u")
                              then
                                match hex4 g1 g2 g3 g4 with
                                | None =>
                                    inl (At INVALID_U_ESCAPE
                                            (length s3 - 1))
                                | Some y =>
                                    if low_surrogate y
                                    then scan_string begin s4
                                           (join_surrogates x y :: acc)
                                    else scan_string begin s3 (x :: acc)
                                end
                              else scan_string begin s3 (x :: acc)
                          | _ => scan_string begin s3 (x :: acc)
                          end
                      end
                  end
              | _ => inl (At INVALID_U_ESCAPE (length s1))
              end
            else
              match unescape e with
              | Some x => scan_string begin s2 (x :: acc)
              | None => inl (At INVALID_ESCAPE (length s))
              end
        end
      else if (c <? 32)%N then inl (At INVALID_CONTROL (length s))
      else scan_string begin s1 (c :: acc)
  end.

(** *** Numbers *)

(** A run of digits: its value, the number of digits, the rest. *)
Fixpoint scan_digits (s : str) (value : Z) (count : Z) : Z * Z * str :=
  match s with
  | c :: s' =>
      if is_digit c
      then scan_digits s' (10 * value + (Z.of_N c - 48))%Z (count + 1)%Z
      else (value, count, s)
  | [] => (value, count, s)
  end.

Definition scan_exponent (s : str) : option (Z * str) :=
  match s with
  | c :: s' =>
      if N.eqb c (ch "e") || N.eqb c (ch "E") then
        let (negative, s'') :=
          match s' with
          | d :: t => if N.eqb d (ch "-") then (true, t)
                      else if N.eqb d (ch "+") then (false, t)
                      else (false, s')
          | [] => (false, s')
          end in
        match scan_digits s'' 0 0 with
        | (v, n, rest) =>
            if (n =? 0)%Z then None
            else Some (if negative then (- v)%Z else v, rest)
        end
      else None
  | [] => None
  end.

(** [float(text)] of the decimal [m * 10 ^ e]: the nearest double is zero
    when the decimal is at most [2 ^ -1075], half of the least positive
    double. *)
Definition to_float (m e : Z) : json :=
  if ((e <? 0) && (Z.abs m * 2 ^ 1075 <=? 10 ^ (- e)))%Z
  then JFloat 0 e
  else JFloat m e.

(** [int(text)] refuses more than 4300 digits. *)
Definition too_many_digits (n : Z) : str :=
  lit "Exceeds the limit (4300 digits) for integer string conversion: value has "
  ++ decimal n
  ++ lit " digits; use sys.set_int_max_str_digits() to increase the limit".

(** [_match_number_unicode]: sign, integer part, fraction, exponent. *)
Definition scan_number (s : str) : failure + (json * str) :=
  let (negative, s1) :=
    match s with
    | c :: t => if N.eqb c (ch "-") then (true, t) else (false, s)
    | [] => (false, s)
    end in
  let sign := fun v : Z => if negative then (- v)%Z else v in
  let int_part :=
    match s1 with
    | c :: s2 =>
        if (c =? 48)%N then Some (0%Z, 1%Z, s2)
        else if is_digit c then Some (scan_digits s1 0 0)
             else None
    | [] => None
    end in
  match int_part with
  | None => inl (At EXPECTING_VALUE (length s))
  | Some (i, n, rest) =>
      let fraction :=
        match rest with
        | c :: r =>
            if N.eqb c (ch ".") then
              match scan_digits r 0 0 with
              | (v, n, r') => if (n =? 0)%Z then None else Some (v, n, r')
              end
            else None
        | [] => None
        end in
      match fraction with
      | Some (fv, fn, r') =>
          let m := (i * 10 ^ fn + fv)%Z in
          match scan_exponent r' with
          | Some (e, r'') => inr (to_float (sign m) (e - fn), r'')
          | None => inr (to_float (sign m) (- fn), r')
          end
      | None =>
          match scan_exponent rest with
          | Some (e, r'') => inr (to_float (sign i) e, r'')
          | None =>
              if (4300 <? n)%Z then inl (Other (too_many_digits n))
              else inr (JInt (sign i), rest)
          end
      end
  end.

(** [NaN], which no decimal denotes, and the infinities: non-zero floats,
    which is all the code can tell of them. *)
Definition NAN : json := JFloat 1 0.
Definition INFINITY : json := JFloat 1 400.
Definition NEG_INFINITY : json := JFloat (-1) 400.

(** *** Arrays, objects, values *)

Section Compound.

(** [scan_once] at the start of a value. *)
Variable value : str -> failure + (json * str).

(** [_parse_array_unicode] at the start of an item; [n] bounds the number
    of items. *)
Fixpoint scan_items (n : nat) (s : str) (acc : list json)
  : failure + (list json * str) :=
  match n with
  | O => inl (At EXPECTING_VALUE 0)
  | S n' =>
      match value s with
      | inl f => inl f
      | inr (v, rest) =>
          match skip_ws rest with
          | c :: rest' =>
              if N.eqb c (ch "]") then inr (rev (v :: acc), rest')
              else if N.eqb c (ch ",")
              then scan_items n' (skip_ws rest') (v :: acc)
              else inl (At EXPECTING_COMMA (length (skip_ws rest)))
          | [] => inl (At EXPECTING_COMMA 0)
          end
      end
  end.

(** [_parse_object_unicode] at the start of a member; [n] bounds the number
    of members. A repeated key keeps its first position and takes the last
    value. *)
Fixpoint scan_members (n : nat) (s : str) (acc : dict)
  : failure + (dict * str) :=
  match n with
  | O => inl (At EXPECTING_NAME 0)
  | S n' =>
      match s with
      | q :: s1 =>
          if (q =? 34)%N then
            match scan_string (length s) s1 [] with
            | inl f => inl f
            | inr (key, s2) =>
                match skip_ws s2 with
                | colon :: s3 =>
                    if N.eqb colon (ch ":") then
                      match value (skip_ws s3) with
                      | inl f => inl f
                      | inr (v, s4) =>
                          let acc := dict_set key v acc in
                          match skip_ws s4 with
                          | c :: s5 =>
                              if N.eqb c (ch "}") then inr (acc, s5)
                              else if N.eqb c (ch ",")
                              then scan_members n' (skip_ws s5) acc
                              else inl (At EXPECTING_COMMA
                                          (length (skip_ws s4)))
                          | [] => inl (At EXPECTING_COMMA 0)
                          end
                      end
                    else inl (At EXPECTING_COLON (length (skip_ws s2)))
                | [] => inl (At EXPECTING_COLON 0)
                end
            end
          else inl (At EXPECTING_NAME (length s))
      | [] => inl (At EXPECTING_NAME 0)
      end
  end.

End Compound.

(** [scan_once_unicode]; [fuel] bounds the depth of nesting. *)
Fixpoint scan_value (fuel : nat) (s : str) : failure + (json * str) :=
  match fuel with
  | O => inl (At EXPECTING_VALUE (length s))
  | S fuel' =>
      match s with
      | [] => inl (At EXPECTING_VALUE 0)
      | c :: rest =>
          if (c =? 34)%N then
            match scan_string (length s) rest [] with
            | inr (x, r) => inr (JStr x, r)
            | inl f => inl f
            end
          else if N.eqb c (ch "{") then
            match skip_ws rest with
            | c' :: rest' =>
                if N.eqb c' (ch "}") then inr (JObj [], rest')
                else
                  match scan_members (scan_value fuel') (length rest)
                          (skip_ws rest) []
                  with
                  | inr (d, r) => inr (JObj d, r)
                  | inl f => inl f
                  end
            | [] => inl (At EXPECTING_NAME 0)
            end
          else if N.eqb c (ch "[") then
            match skip_ws rest with
            | c' :: rest' =>
                if N.eqb c' (ch "]") then inr (JArr [], rest')
                else
                  match scan_items (scan_value fuel') (length rest)
                          (skip_ws rest) []
                  with
                  | inr (l, r) => inr (JArr l, r)
                  | inl f => inl f
                  end
            | [] => inl (At EXPECTING_VALUE 0)
            end
          else if startswith (lit "null") s
               then inr (JNull, skipn 4 s)
          else if startswith (lit "true") s
               then inr (JBool true, skipn 4 s)
          else if startswith (lit "false") s
               then inr (JBool false, skipn 5 s)
          else if startswith (lit "NaN") s
               then inr (NAN, skipn 3 s)
          else if startswith (lit "Infinity") s
               then inr (INFINITY, skipn 8 s)
          else if startswith (lit "-Infinity") s
               then inr (NEG_INFINITY, skipn 9 s)
          else scan_number s
      end
  end.

(** [json.loads(s)]: the value, or the message of the exception. *)
Definition loads (s : str) : str + json :=
  if startswith [65279%N] s
  then inl (message s (At UNEXPECTED_BOM (length s)))
  else
    match scan_value (S (length s)) (skip_ws s) with
    | inl f => inl (message s f)
    | inr (v, rest) =>
        match skip_ws rest with
        | [] => inr v
        | r => inl (message s (At EXTRA_DATA (length r)))
        end
    end.

(** ** [str.lower] *)

Definition lower_char (c : char) : char :=
  if ((65 <=? c) && (c <=? 90)
      || (192 <=? c) && (c <=? 222) && negb (c =? 215))%N
  then (c + 32)%N else c.

Definition lower (s : str) : str := map lower_char s.

(** ** [str.format] with keyword arguments

    The scanner of CPython: a literal runs up to the next brace; [{{] and
    [}}] stand for one brace; after a single [{] the field name runs up to
    [}], [:] or [!], and a format specification up to the matching [}]. The
    field is looked up before its specification is considered. *)

Fixpoint kw_get (k : str) (kw : list (str * str)) : option str :=
  match kw with
  | [] => None
  | (k', v) :: kw' => if str_eqb k k' then Some v else kw_get k kw'
  end.

(** The field name: the name, the character that ends it, the rest. *)
Fixpoint scan_field_name (in_index : bool) (s acc : str)
  : result (str * char * str) :=
  match s with
  | [] => Err (ValueError (lit "expected '}' before end of string"))
  | c :: s' =>
      if in_index
      then scan_field_name (negb (N.eqb c (ch "]"))) s' (c :: acc)
      else if N.eqb c (ch "{")
      then Err (ValueError (lit "unexpected '{' in field name"))
      else if N.eqb c (ch "[") then scan_field_name true s' (c :: acc)
      else if N.eqb c (ch "}") || N.eqb c (ch ":") || N.eqb c (ch "!")
      then Ok (rev acc, c, s')
      else scan_field_name false s' (c :: acc)
  end.

(** The format specification: [count] braces are open. *)
Fixpoint scan_format_spec (count : nat) (s acc : str) : result (str * str) :=
  match s with
  | [] => Err (ValueError (lit "unmatched '{' in format spec"))
  | c :: s' =>
      if N.eqb c (ch "{") then scan_format_spec (S count) s' (c :: acc)
      else if N.eqb c (ch "}") then
        match count with
        | S (S k) => scan_format_spec (S k) s' (c :: acc)
        | _ => Ok (rev acc, s')
        end
      else scan_format_spec count s' (c :: acc)
  end.

(** The part of a field name before the first [.] or [[]. *)
Fixpoint first_part (name : str) : str * str :=
  match name with
  | [] => ([], [])
  | c :: name' =>
      if N.eqb c (ch ".") || N.eqb c (ch "[") then ([], name)
      else let (a, b) := first_part name' in (c :: a, b)
  end.

Definition get_field (name : str) (kw : list (str * str)) : result str :=
  let (first, rest) := first_part name in
  if is_empty first || forallb is_digit first
  then Err IndexError                    (* a positional argument: none *)
  else match kw_get first kw with
       | None => Err (KeyError first)
       | Some v => if is_empty rest then Ok v else Err Unsupported
       end.

Fixpoint format_from (fuel : nat) (s : str) (kw : list (str * str))
  : result str :=
  match fuel with
  | O => Ok []
  | S fuel' =>
      match s with
      | [] => Ok []
      | c :: s' =>
          if N.eqb c (ch "{") then
            match s' with
            | [] => Err (ValueError
                           (lit "Single '{' encountered in format string"))
            | c' :: s'' =>
                if N.eqb c' (ch "{")
                then out <- format_from fuel' s'' kw ;; Ok (c :: out)
                else
                  field <- scan_field_name false s' [] ;;
                  let '(name, stop, after) := field in
                  if N.eqb stop (ch "!") then Err Unsupported
                  else
                    spec <- (if N.eqb stop (ch ":")
                             then scan_format_spec 1 after []
                             else Ok ([], after)) ;;
                    v <- get_field name kw ;;
                    if is_empty (fst spec)
                    then out <- format_from fuel' (snd spec) kw ;;
                         Ok (v ++ out)
                    else Err Unsupported
            end
          else if N.eqb c (ch "}") then
            match s' with
            | c' :: s'' =>
                if N.eqb c' (ch "}")
                then out <- format_from fuel' s'' kw ;; Ok (c :: out)
                else Err (ValueError
                            (lit "Single '}' encountered in format string"))
            | [] => Err (ValueError
                           (lit "Single '}' encountered in format string"))
            end
          else out <- format_from fuel' s' kw ;; Ok (c :: out)
      end
  end.

Definition format (template : str) (kw : list (str * str)) : result str :=
  format_from (length template) template kw.

(** ** [json.dumps(v, indent=2)] *)

Definition hex_digit (n : N) : char :=
  if (n <? 10)%N then (48 + n)%N else (87 + n)%N.

Definition u_escape (c : N) : str :=
  [92%N; ch "u"; hex_digit (c / 4096 mod 16); hex_digit (c / 256 mod 16);
   hex_digit (c / 16 mod 16); hex_digit (c mod 16)]%N.

Definition escape_char (c : char) : str :=
  if (c =? 34)%N then [92; 34]%N
  else if (c =? 92)%N then [92; 92]%N
  else if (c =? 10)%N then [92%N; ch "n"]
  else if (c =? 13)%N then [92%N; ch "r"]
  else if (c =? 9)%N then [92%N; ch "t"]
  else if (c =? 8)%N then [92%N; ch "b"]
  else if (c =? 12)%N then [92%N; ch "f"]
  else if ((32 <=? c) && (c <=? 126))%N then [c]
  else if (c <? 65536)%N then u_escape c
  else u_escape (55296 + (c - 65536) / 1024)
       ++ u_escape (56320 + (c - 65536) mod 1024).

Definition quote (s : str) : str := [34%N] ++ flat_map escape_char s ++ [34%N].

Definition indent (level : nat) : str := repeat 32%N (2 * level).

Fixpoint dumps_at (level : nat) (v : json) {struct v} : str :=
  match v with
  | JNull => lit "null"
  | JBool true => lit "true"
  | JBool false => lit "false"
  | JInt n => decimal n
  | JFloat m e => decimal m ++ [ch "e"] ++ decimal e
  | JStr s => quote s
  | JArr [] => lit "[]"
  | JArr items =>
      [ch "["; nl] ++ indent (S level)
      ++ join ([ch ","; nl] ++ indent (S level))
              (map (dumps_at (S level)) items)
      ++ [nl] ++ indent level ++ [ch "]"]
  | JObj [] => lit "{}"
  | JObj fields =>
      [ch "{"; nl] ++ indent (S level)
      ++ join ([ch ","; nl] ++ indent (S level))
              (map (fun kv => quote (fst kv) ++ lit ": "
                              ++ dumps_at (S level) (snd kv)) fields)
      ++ [nl] ++ indent level ++ [ch "}"]
  end.

Definition dumps (v : json) : str := dumps_at 0 v.

Definition lib : pylib := {|
  json_loads := loads;
  json_dumps := dumps;
  str_lower := lower;
  str_format := format
|}.

End Ref.

(* ===================================================================== *)
(** * Concrete scenarios *)
(* ===================================================================== *)

Module Scenario.

Definition root : str := lit "proj".

(** A project whose only file, [a.py], contains the call [foo(bar)]. *)
Definition fs : filesystem := {|
  isfile := fun p => str_eqb p (lit "proj/a.py");
  read_text := fun p =>
    if str_eqb p (lit "proj/a.py")
    then Some (lit "x = 1" ++ [nl] ++ lit "y = foo(bar)" ++ [nl])
    else None
|}.

Definition report_of (items : list json) : json :=
  JObj [(lit "role", JStr (lit "sde"));
        (lit "criteria_scores",
         JObj [(lit "correctness",
                JObj [(lit "score", JInt 40);
                      (lit "justification", JStr (lit "calls foo"));
                      (lit "evidence", JArr items)])]);
        (lit "total_score", JInt 40)].

Definition item (p snippet note : str) : json :=
  JObj [(lit "path", JStr p); (lit "snippet", JStr snippet);
        (lit "note", JStr note)].

(** The round trip of the specification: the same file cited with a
    snippet it contains and with one it does not. *)
Definition round_trip : json :=
  report_of [item (lit "a.py") (lit "foo(bar)") (lit "the call");
             item (lit "a.py") (lit "foo(baz)") (lit "the call")].

(** A note that starts with white space, on a snippet that is not found. *)
Definition indented_note : json :=
  report_of [item (lit "a.py") (lit "foo(baz)") (lit "  see line 3")].

(** An item without note whose snippet is in the cited file. *)
Definition no_note : json :=
  report_of [JObj [(lit "path", JStr (lit "a.py"));
                   (lit "snippet", JStr (lit "foo(bar)"))]].

(** An item with nothing but a note. *)
Definition only_note : json :=
  report_of [JObj [(lit "note", JStr (lit "from memory"))]].

(** An unverified item whose note is a number, and one without path whose
    note is a number. *)
Definition numeric_note : json :=
  report_of [JObj [(lit "path", JStr (lit "a.py"));
                   (lit "snippet", JStr (lit "foo(baz)"));
                   (lit "note", JInt 3)]].

Definition no_path_numeric_note : json :=
  report_of [JObj [(lit "snippet", JStr (lit "foo(bar)"));
                   (lit "note", JInt 3)]].

(** What the verifier makes of these reports. *)
Definition round_trip_verified : json :=
  report_of
    [JObj [(lit "path", JStr (lit "a.py"));
           (lit "snippet", JStr (lit "foo(bar)"));
           (lit "note", JStr (lit "the call"));
           (lit "verified", JBool true)];
     JObj [(lit "path", JStr (lit "a.py"));
           (lit "snippet", JStr (lit "foo(baz)"));
           (lit "note", JStr (lit "the call [EVIDENCE NOT FOUND]"));
           (lit "verified", JBool false)]].

Definition indented_note_verified : json :=
  report_of
    [JObj [(lit "path", JStr (lit "a.py"));
           (lit "snippet", JStr (lit "foo(baz)"));
           (lit "note", JStr (lit "see line 3 [EVIDENCE NOT FOUND]"));
           (lit "verified", JBool false)]].

Definition no_note_verified : json :=
  report_of [JObj [(lit "path", JStr (lit "a.py"));
                   (lit "snippet", JStr (lit "foo(bar)"));
                   (lit "verified", JBool true)]].

(** A model reply: the round-trip report between two lines of prose; and
    one whose item comes with a [verified] of the model's own. *)
Definition presumptuous_reply : str :=
  lit "{~criteria_scores~: {~style~: {~evidence~: [{~path~: ~a.py~, ~snippet~: ~foo(baz)~, ~note~: ~sure~, ~verified~: ~yes~}]}}}".

Definition reply_object : str :=
  lit "{~role~: ~sde~, ~criteria_scores~: {~correctness~: {~score~: 40, ~justification~: ~calls foo~, ~evidence~: [{~path~: ~a.py~, ~snippet~: ~foo(bar)~, ~note~: ~the call~}, {~path~: ~a.py~, ~snippet~: ~foo(baz)~, ~note~: ~the call~}]}}, ~total_score~: 40}".

Definition reply : str :=
  (lit "Sure! Here you go:" ++ [nl]) ++ reply_object ++ ([nl] ++ lit "Thanks!").

(** The same object after prose that itself holds a pair of braces. *)
Definition braced_prose_reply : str :=
  lit "Use {x} here: " ++ reply_object.

Definition reply_outcome : outcome := {|
  raw := reply;
  result_ := round_trip_verified;
  files_sent_count := 0
|}.

(** A project tree: a README and a source file at the root, a README in
    [docs], an oversized file, an image, a file that cannot be read and a
    [.git] directory. *)
Definition text_file (text : str) : node :=
  File {| getsize := Some (len text); file_text := Some text |}.

Definition tree : node :=
  Dir [(lit "app.py", text_file (lit "y = foo(bar)"));
       (lit "docs", Dir [(lit "README.md", text_file (lit "# Docs"))]);
       (lit "dump.json",
        File {| getsize := Some 200001%Z; file_text := Some (lit "{}") |});
       (lit "logo.png", text_file (lit "PNG"));
       (lit "locked.py",
        File {| getsize := Some 3%Z; file_text := None |});
       (lit ".git", Dir [(lit "notes.txt", text_file (lit "x"))]);
       (lit "README.md", text_file (lit "# App"))].

(** The same project, its root listed in another order. *)
Definition tree_relisted : node :=
  Dir [(lit "README.md", text_file (lit "# App"));
       (lit ".git", Dir [(lit "notes.txt", text_file (lit "x"))]);
       (lit "locked.py",
        File {| getsize := Some 3%Z; file_text := None |});
       (lit "logo.png", text_file (lit "PNG"));
       (lit "dump.json",
        File {| getsize := Some 200001%Z; file_text := Some (lit "{}") |});
       (lit "docs", Dir [(lit "README.md", text_file (lit "# Docs"))]);
       (lit "app.py", text_file (lit "y = foo(bar)"))].

Definition selected : list FileEntry :=
  [{| path := lit "README.md"; content := lit "# App" |};
   {| path := lit "app.py"; content := lit "y = foo(bar)" |};
   {| path := lit "docs/README.md"; content := lit "# Docs" |}].

(** The environment of a run on this project: a criteria file, the tree,
    and a model that answers with [reply]. *)
Definition world_of_run : world := {|
  criteria_text := fun p =>
    if str_eqb p (lit "criteria.json")
    then Some (lit "{~correctness~: 50, ~style~: 50}")
    else None;
  project_tree := fun _ => tree;
  project_files := fs;
  call_gemini := fun _ => Ok reply
|}.

(** Contents of 6000 and of 6001 characters, and one of 6001 that starts
    with a fence. *)
Definition exactly_6000 : FileEntry :=
  {| path := lit "a.txt"; content := repeat (ch "a") (Z.to_nat 6000) |}.
Definition exactly_6001 : FileEntry :=
  {| path := lit "b.txt"; content := repeat (ch "b") (Z.to_nat 6001) |}.
Definition fenced_6001 : FileEntry :=
  {| path := lit "c.md";
     content := lit "```" ++ repeat (ch "c") (Z.to_nat 5998) |}.

(** Replies without any brace: prose, an indented line, valid JSON that
    is no object. *)
Definition refusal : str := lit "I cannot evaluate this project.".

(** What [json.loads] says of a text that does not start with a value. *)
Definition expecting_value : str :=
  lit "Expecting value: line 1 column 1 (char 0)".

End Scenario.

(* ===================================================================== *)
(** * Further properties: definitions *)
(* ===================================================================== *)

(** ** File Selector *)

(** The tree with every directory of [SKIPPED_DIRS] emptied. *)
Fixpoint prune (n : node) {struct n} : node :=
  match n with
  | File f => File f
  | Dir entries =>
      Dir (map (fun e => (fst e,
                          match snd e with
                          | Dir _ =>
                              if str_mem (fst e) SKIPPED_DIRS then Dir []
                              else prune (snd e)
                          | File f => File f
                          end)) entries)
  end.

(** A file the selector accepts: allowed extension, size within the
    ceiling, readable as text. *)
Definition eligible (L : pylib) (include_exts : option (list str))
    (max_size_bytes : Z) (fname : str) (f : file) (text : str) : Prop :=
  ext_allowed L include_exts fname = true
  /\ (exists size, getsize f = Some size /\ (size <= max_size_bytes)%Z)
  /\ file_text f = Some text.

(** An entry of the selection comes from a file of a walked directory that
    the selector accepts. *)
Definition selected_from (L : pylib) (include_exts : option (list str))
    (max_size_bytes : Z) (walked : list (str * list (str * file)))
    (e : FileEntry) : Prop :=
  exists rel files fname f,
    In (rel, files) walked /\ In (fname, f) files
    /\ path e = rel_join rel fname
    /\ eligible L include_exts max_size_bytes fname f (content e).

(** ** Prompt Builder *)

Definition ZERO_WIDTH_SPACE : char := 8203%N.

Definition without_zero_width (s : str) : str :=
  filter (fun c => negb (N.eqb c ZERO_WIDTH_SPACE)) s.

(** ** Pipeline Orchestrator *)

(** The events of a complete run, in order. *)
Definition full_trace (project_root criteria_path prompt : str)
  : list event :=
  [CriteriaRead criteria_path; ProjectIO project_root; ModelCall prompt;
   ProjectIO project_root].

(** The files the run gathers on line 175. *)
Definition gathered (L : pylib) (w : world) (project_root : str)
  : list FileEntry :=
  gather_files L (Some INCLUDE_EXTS) 80 200000 (project_tree w project_root).

(** The stage that raised [e] in a run of [validate_project], and the
    events [t] the run performed up to there. Each stage works on what the
    stages before it produced in this very run: the criteria read from
    [criteria_path], the prompt built from them and from the gathered files,
    the reply of the model to that prompt, the report parsed from that
    reply. Except in [ParseFailed], [e] is the exception of the failing
    call itself. *)
Inductive failed_stage (L : pylib) (w : world)
    (project_root criteria_path role : str) (t : list event) (e : exn)
  : Prop :=
| RoleRejected :
    str_mem role ROLES = false ->
    e = ValueError (lit "role must be one of: intern, sde, architect") ->
    t = [] ->
    failed_stage L w project_root criteria_path role t e
| CriteriaFailed :
    str_mem role ROLES = true ->
    read_criteria L w criteria_path = Err e ->
    t = [CriteriaRead criteria_path] ->
    failed_stage L w project_root criteria_path role t e
| PromptFailed criteria :
    str_mem role ROLES = true ->
    read_criteria L w criteria_path = Ok criteria ->
    snd (build_prompt L criteria role (gathered L w project_root)) = Err e ->
    t = [CriteriaRead criteria_path; ProjectIO project_root] ->
    failed_stage L w project_root criteria_path role t e
| ModelFailed criteria prompt :
    str_mem role ROLES = true ->
    read_criteria L w criteria_path = Ok criteria ->
    snd (build_prompt L criteria role (gathered L w project_root))
    = Ok prompt ->
    call_gemini w prompt = Err e ->
    t = [CriteriaRead criteria_path; ProjectIO project_root;
         ModelCall prompt] ->
    failed_stage L w project_root criteria_path role t e
| ParseFailed criteria prompt raw msg :
    str_mem role ROLES = true ->
    read_criteria L w criteria_path = Ok criteria ->
    snd (build_prompt L criteria role (gathered L w project_root))
    = Ok prompt ->
    call_gemini w prompt = Ok raw ->
    parse_response L raw = Err e ->
    json_loads L (strip raw) = inl msg ->
    e = parse_failure (strip raw) msg ->
    t = [CriteriaRead criteria_path; ProjectIO project_root;
         ModelCall prompt] ->
    failed_stage L w project_root criteria_path role t e
| VerifierFailed criteria prompt raw parsed :
    str_mem role ROLES = true ->
    read_criteria L w criteria_path = Ok criteria ->
    snd (build_prompt L criteria role (gathered L w project_root))
    = Ok prompt ->
    call_gemini w prompt = Ok raw ->
    parse_response L raw = Ok parsed ->
    verify_evidence (project_files w) project_root parsed = Err e ->
    t = full_trace project_root criteria_path prompt ->
    failed_stage L w project_root criteria_path role t e.

(** ** Evidence Verifier *)

(** The verdict is what the specification's test says of the parsed item. *)
Definition verdict_exact (fs : filesystem) (project_root : str)
    (ev ev' : json) : Prop :=
  exists d d',
    ev = JObj d /\ ev' = JObj d'
    /\ dict_get (lit "verified") d'
       = Some (JBool (evidence_found fs project_root d)).

(** A dict without the entries of some keys, the others in their order. *)
Definition without (keys : list str) (d : dict) : dict :=
  filter (fun kv => negb (str_mem (fst kv) keys)) d.

(** From [d] to [d'] only the entries of [keys] may have changed: every
    other key has the value it had; the other entries are the same, in the
    same order; every key of [d] is at the place it had, and the keys that
    were added, all of them among [keys], come after. *)
Definition dict_frame (keys : list str) (d d' : dict) : Prop :=
  (forall k, ~ In k keys -> dict_get k d' = dict_get k d)
  /\ without keys d' = without keys d
  /\ exists added,
       map fst d' = map fst d ++ added /\ incl added keys.

(** Of an item, only [verified] and [note] may change. *)
Definition item_frame (ev ev' : json) : Prop :=
  exists d d',
    ev = JObj d /\ ev' = JObj d'
    /\ dict_frame [lit "verified"; lit "note"] d d'.

(** Of a category, only [evidence] may change. *)
Definition category_frame (e e' : str * json) : Prop :=
  fst e = fst e'
  /\ exists d d',
       snd e = JObj d /\ snd e' = JObj d'
       /\ dict_frame [lit "evidence"] d d'.

(** Of a report, only [criteria_scores] may change. *)
Definition report_frame (report report' : json) : Prop :=
  exists r r',
    report = JObj r /\ report' = JObj r'
    /\ dict_frame [lit "criteria_scores"] r r'.

(** A second run of the verifier on a verified report: a verified item is
    returned as it is, an unverified one gets the marker once more. *)
Definition reverified (ev1 ev2 : json) : Prop :=
  exists d1,
    ev1 = JObj d1
    /\ (dict_get (lit "verified") d1 = Some (JBool true) \/
        dict_get (lit "verified") d1 = Some (JBool false))
    /\ (dict_get (lit "verified") d1 = Some (JBool true) -> ev2 = ev1)
    /\ (dict_get (lit "verified") d1 = Some (JBool false) ->
        ev2 = JObj (dict_set (lit "note")
                      (JStr (note_text d1 ++ NOT_FOUND)) d1)).

(* ===================================================================== *)
(** * app.py: the helpers and the route that calls the pipeline *)
(* ===================================================================== *)

Module App.

(** [s.rstrip(c)] for a one-character [c]. *)
Fixpoint rstrip_char (c : char) (s : str) : str :=
  match s with
  | [] => []
  | x :: s' =>
      match rstrip_char c s' with
      | [] => if N.eqb x c then [] else [x]
      | t => x :: t
      end
  end.

(** [s.split(sep)] for a one-character [sep]: never empty. *)
Fixpoint split (sep : char) (s : str) : list str :=
  match s with
  | [] => [[]]
  | x :: s' =>
      if N.eqb x sep then [] :: split sep s'
      else match split sep s' with
           | p :: ps => (x :: p) :: ps
           | [] => [[x]]
           end
  end.

(** [s.split(sep, 1)] *)
Definition split_once (sep : char) (s : str) : list str :=
  match index sep s with
  | Some i => [firstn i s; skipn (S i) s]
  | None => [s]
  end.

Definition EXTRACT_FOLDER : str := lit "./extracted".

(** Lines 26-32: [repo_url.rstrip('/').split('/')[-1]]. *)
Definition get_repo_name_from_url (repo_url : str) : str :=
  last (split (ch "/") (rstrip_char (ch "/") repo_url)) [].

(** Lines 70-71, the folder a repository is extracted to. *)
Definition extract_path_of (repo_url : str) : str :=
  path_join EXTRACT_FOLDER (get_repo_name_from_url repo_url).

(** Line 68: the items of the comma-separated list, trimmed, the blank
    ones left out. *)
Definition required_items_of (required_input : str) : list str :=
  map strip
      (filter (fun item => negb (is_empty (strip item)))
              (split (ch ",") required_input)).

(** Lines 97-101: the name of an archive member without its top folder. *)
Definition member_path (member : str) : str :=
  match split_once (ch "/") member with
  | [_; rest] => rest
  | parts => hd [] parts
  end.

(** Line 103: where the member is written. *)
Definition target_path (extract_path member : str) : str :=
  path_join extract_path (member_path member).

(** What a route answers: a redirect after a flashed message, a rendered
    report, or the NameError of an unbound name. The text of
    [f"{prefix}{e}"] is kept as its two parts. *)
Inductive flashed :=
| Message (text : str)
| Failure (prefix : str) (e : exn).

Inductive response :=
| Redirect (endpoint : str) (flash : flashed) (category : str)
| Render (template : str) (report : json) (raw : str) (files_sent : nat)
| NameError (name : str).

(** The server: which paths are directories, and the directory of app.py,
    [os.path.dirname(os.path.abspath(__file__))]. *)
Record server := {
  isdir : str -> bool;
  app_dir : str
}.

(** [request.form.get(key, default)] *)
Fixpoint form_get (key default : str) (form : list (str * str)) : str :=
  match form with
  | [] => default
  | (k, v) :: form' => if str_eqb key k then v else form_get key default form'
  end.

(** Lines 191-223, the route [/validate/ai]. Line 207 rebinds
    [project_root] to the directory of app.py; [base_root] on line 210 is
    bound nowhere in this function or in the module, so the branch of a
    non-empty subfolder ends there. *)
Definition validate_ai (L : pylib) (w : world) (srv : server)
    (form : list (str * str)) : list event * response :=
  let repo_name := strip (form_get (lit "repo_name") [] form) in
  let role := strip (form_get (lit "role") (lit "intern") form) in
  let subfolder := strip (form_get (lit "subfolder") [] form) in
  if is_empty repo_name
  then ([], Redirect (lit "upload") (Message (lit "repo_name required"))
              (lit "danger"))
  else
    let project_root := path_join EXTRACT_FOLDER repo_name in
    if negb (isdir srv project_root)
    then ([], Redirect (lit "upload")
                (Message (lit "Extracted repo not found")) (lit "danger"))
    else
      let project_root := app_dir srv in
      if negb (is_empty subfolder)
      then ([], NameError (lit "base_root"))
      else
        match validate_project L w project_root (lit "criteria.json") role
        with
        | (t, Ok res) =>
            (t, Render (lit "ai_report.html") (result_ res) (raw res)
                  (files_sent_count res))
        | (t, Err e) =>
            (t, Redirect (lit "dev_validate")
                  (Failure (lit "AI validation failed: ") e) (lit "danger"))
        end.

End App.

(** An item as the page lists it: not empty, no white space around it, no
    comma in it. *)
Definition clean_item (item : str) : Prop :=
  item <> [] /\ strip item = item /\ ~ In (ch ",") item.

(** ** More scenarios *)

Module Cases.

(** A server on which a file exists outside of every project. *)
Definition fs : filesystem := {|
  isfile := fun p => str_eqb p (lit "/etc/hostname");
  read_text := fun p =>
    if str_eqb p (lit "/etc/hostname") then Some (lit "build-7") else None
|}.

Definition outside_item : dict :=
  [(lit "path", JStr (lit "/etc/hostname"));
   (lit "snippet", JStr (lit "build"))].

(** A world whose criteria file is missing. *)
Definition no_criteria : world := {|
  criteria_text := fun _ => None;
  project_tree := fun _ => Scenario.tree;
  project_files := Scenario.fs;
  call_gemini := fun _ => Ok Scenario.reply
|}.

(** The server of the application with one repository extracted, and two
    requests for its analysis. *)
Definition srv : App.server := {|
  App.isdir := fun p => str_eqb p (lit "./extracted/repo");
  App.app_dir := lit "/srv/app"
|}.

Definition form_repo : list (str * str) :=
  [(lit "repo_name", lit " repo "); (lit "role", lit "sde")].

Definition form_subfolder : list (str * str) :=
  form_repo ++ [(lit "subfolder", lit "src")].

End Cases.

(* ===================================================================== *)
(** * Properties *)
(* ===================================================================== *)

(** ** Strings *)

Lemma str_eqb_spec a b : reflect (a = b) (str_eqb a b).
Proof.
  revert b; induction a as [|x a IH]; intros [|y b]; simpl;
    try (constructor; congruence).
  destruct (N.eqb_spec x y); simpl.
  - destruct (IH b); constructor; congruence.
  - constructor; congruence.
Qed.

Lemma str_eqb_refl a : str_eqb a a = true.
Proof. destruct (str_eqb_spec a a); congruence. Qed.

Lemma lstrip_app_solid a c b :
  is_space c = false -> lstrip (a ++ c :: b) = lstrip a ++ c :: b.
Proof.
  intros Hc. induction a as [|x a IH]; simpl.
  - now rewrite Hc.
  - destruct (is_space x); [exact IH | reflexivity].
Qed.

Lemma rstrip_app_kept a b : rstrip b <> [] -> rstrip (a ++ b) = a ++ rstrip b.
Proof.
  intros Hb. induction a as [|x a IH]; simpl; [reflexivity|].
  rewrite IH. destruct (a ++ rstrip b) eqn:E; [|reflexivity].
  apply app_eq_nil in E. tauto.
Qed.

Lemma rstrip_solid_end a c : is_space c = false -> rstrip (a ++ [c]) = a ++ [c].
Proof.
  intros Hc. rewrite rstrip_app_kept; simpl; rewrite Hc; [reflexivity|discriminate].
Qed.

(** The stripped note of an unverified item. *)
Lemma strip_not_found n :
  strip (n ++ NOT_FOUND) = lstrip (n ++ [32%N]) ++ MARKER.
Proof.
  unfold strip.
  change NOT_FOUND with ([32%N] ++ MARKER).
  rewrite app_assoc.
  change MARKER with (91%N :: tl MARKER) at 1.
  rewrite lstrip_app_solid by reflexivity.
  change (91%N :: tl MARKER) with MARKER.
  rewrite rstrip_app_kept; [reflexivity | discriminate].
Qed.

(** ** Dicts *)

Lemma dict_get_set_same k v d : dict_get k (dict_set k v d) = Some v.
Proof.
  induction d as [|[k' v'] d IH]; simpl.
  - now rewrite str_eqb_refl.
  - destruct (str_eqb_spec k k') as [->|Hne]; simpl.
    + now rewrite str_eqb_refl.
    + destruct (str_eqb_spec k k'); [contradiction | exact IH].
Qed.

Lemma dict_get_set_other k k' v d :
  k <> k' -> dict_get k (dict_set k' v d) = dict_get k d.
Proof.
  intros Hne. induction d as [|[k0 v0] d IH]; simpl.
  - destruct (str_eqb_spec k k'); [contradiction | reflexivity].
  - destruct (str_eqb_spec k' k0) as [->|Hne0]; simpl.
    + destruct (str_eqb_spec k k0); [contradiction | reflexivity].
    + destruct (str_eqb_spec k k0); [reflexivity | exact IH].
Qed.

(** ** The monad of results *)

Lemma mapM_total {A B} (f : A -> result B) (g : A -> B) l :
  (forall x, In x l -> f x = Ok (g x)) -> mapM f l = Ok (map g l).
Proof.
  induction l as [|x l IH]; intros H; simpl; [reflexivity|].
  rewrite (H x) by now left. simpl.
  rewrite IH by (intros; apply H; now right). reflexivity.
Qed.

Lemma mapM_ok {A B} (f : A -> result B) l l' :
  mapM f l = Ok l' -> Forall2 (fun x y => f x = Ok y) l l'.
Proof.
  revert l'. induction l as [|x l IH]; simpl; intros l' H.
  - injection H as <-. constructor.
  - destruct (f x) as [y|] eqn:Ex; simpl in H; [|discriminate].
    destruct (mapM f l) as [ys|] eqn:El; simpl in H; [|discriminate].
    injection H as <-. constructor; auto.
Qed.

(** ** Evidence Verifier *)

Lemma path_join_nonempty a b : b <> [] -> is_empty (path_join a b) = false.
Proof.
  intros Hb. unfold path_join.
  destruct (startswith [ch "/"] b).
  - destruct b; [contradiction | reflexivity].
  - destruct (is_empty a || endswith [ch "/"] a).
    + destruct a; simpl; [destruct b; [contradiction | reflexivity] | reflexivity].
    + destruct a; reflexivity.
Qed.

Lemma mark_copy_shaped d verified :
  str_or_absent (lit "note") d = true ->
  mark_copy d verified
  = Ok (JObj (if verified
              then dict_set (lit "verified") (JBool true) d
              else dict_set (lit "note")
                     (JStr (strip (note_text d ++ NOT_FOUND)))
                     (dict_set (lit "verified") (JBool false) d))).
Proof.
  unfold str_or_absent, mark_copy, note_text, dict_get_default. intros H.
  destruct verified; [reflexivity|]. cbv zeta.
  rewrite (dict_get_set_other (lit "note") (lit "verified")) by discriminate.
  destruct (dict_get (lit "note") d) as [[]|]; try discriminate; reflexivity.
Qed.

(** The verdict computed by the code is the verdict of the specification. *)
Lemma check_snippet_found fs root d :
  str_or_absent (lit "path") d = true ->
  str_or_absent (lit "snippet") d = true ->
  exists fullpath,
    full_path root (dict_get_default (lit "path") JNull d) = Ok fullpath
    /\ check_snippet fs fullpath
         (dict_get_default (lit "snippet") (JStr []) d)
       = evidence_found fs root d.
Proof.
  unfold str_or_absent, full_path, check_snippet, evidence_found,
    dict_get_default.
  intros Hp Hs.
  destruct (dict_get (lit "path") d) as [[| | | |p| |]|]; try discriminate.
  - destruct p as [|c p]; cbn -[path_join strip contains].
    + eexists; split; [reflexivity|].
      destruct (dict_get (lit "snippet") d) as [[]|];
        try discriminate; reflexivity.
    + eexists; split; [reflexivity|].
      cbn -[path_join strip contains].
      rewrite path_join_nonempty by discriminate.
      cbn -[path_join strip contains].
      destruct (dict_get (lit "snippet") d) as [[| | | |sn| |]|];
        try discriminate;
        destruct (isfile fs (path_join root (c :: p)));
          cbn -[path_join strip contains]; try reflexivity;
        destruct (read_text fs (path_join root (c :: p)));
          cbn -[path_join strip contains]; try reflexivity.
  - eexists; split; reflexivity.
Qed.

(** On a well-shaped item the loop body raises nothing and computes
    [annotate_item]. *)
Lemma verify_item_shaped fs root d :
  item_shape (JObj d) = true ->
  verify_item fs root (JObj d) = Ok (JObj (annotate_item fs root d)).
Proof.
  unfold item_shape. intros H.
  apply andb_prop in H as [H Hn]. apply andb_prop in H as [Hp Hs].
  destruct (check_snippet_found fs root d Hp Hs) as (fp & Hfp & Hv).
  unfold verify_item. cbv zeta. rewrite Hfp. simpl. rewrite Hv.
  now apply mark_copy_shaped.
Qed.

Lemma evidence_of_set d evs :
  evidence_of (JObj (dict_set (lit "evidence") (JArr evs) d)) = evs.
Proof. unfold evidence_of. now rewrite dict_get_set_same. Qed.

Lemma Forall2_map_r {A B} (R : A -> B -> Prop) (f : A -> B) l :
  (forall x, In x l -> R x (f x)) -> Forall2 R l (map f l).
Proof.
  induction l as [|x l IH]; intros H; simpl; constructor.
  - apply H. now left.
  - apply IH. intros; apply H. now right.
Qed.

(** On a well-shaped category the outer loop's step raises nothing and
    replaces the evidence list by the annotated items. *)
Lemma verify_category_shaped fs root e :
  category_shape e = true ->
  exists e',
    verify_category fs root e = Ok e'
    /\ fst e = fst e'
    /\ evidence_of (snd e') = map (annotate fs root) (evidence_of (snd e))
    /\ forallb item_shape (evidence_of (snd e)) = true.
Proof.
  destruct e as [cat details]. unfold category_shape, verify_category. simpl.
  destruct details as [| | | | | |d]; try discriminate.
  unfold dict_get_default.
  destruct (dict_get (lit "evidence") d) as [[| | | | |evs|]|] eqn:E;
    try discriminate; intros H; simpl.
  - rewrite (mapM_total _ (annotate fs root)).
    + simpl. eexists; split; [reflexivity|]. simpl.
      rewrite dict_get_set_same, E. auto.
    + intros ev Hin. rewrite forallb_forall in H. specialize (H ev Hin).
      destruct ev; try discriminate. now apply verify_item_shaped.
  - eexists; split; [reflexivity|]. simpl.
    rewrite dict_get_set_same, E. auto.
Qed.

(** On a well-shaped report the verifier raises nothing; it leaves the
    categories in place and annotates every item. *)
Lemma verify_evidence_shaped fs root report :
  report_shape report = true ->
  exists report',
    verify_evidence fs root report = Ok report'
    /\ items_related
         (fun ev ev' => item_shape ev = true /\ ev' = annotate fs root ev)
         report report'.
Proof.
  unfold report_shape, verify_evidence, items_related, categories,
    dict_get_default.
  destruct report as [| | | | | |r]; try discriminate.
  destruct (dict_get (lit "criteria_scores") r) as [[| | | | | |cs]|] eqn:E;
    try discriminate; intros H.
  - assert (Hall : exists cs',
               mapM (verify_category fs root) cs = Ok cs'
               /\ Forall2 (fun e e' : str * json =>
                    fst e = fst e'
                    /\ Forall2 (fun ev ev' =>
                         item_shape ev = true /\ ev' = annotate fs root ev)
                         (evidence_of (snd e)) (evidence_of (snd e')))
                    cs cs').
    { clear E. induction cs as [|e cs IH]; simpl.
      - eexists; split; [reflexivity | constructor].
      - simpl in H. apply andb_prop in H as [He Hcs].
        destruct (verify_category_shaped fs root e He)
          as (e' & -> & Hk & Hev & Hsh).
        destruct (IH Hcs) as (cs' & -> & Hrel). simpl.
        eexists; split; [reflexivity|]. constructor; [|exact Hrel].
        split; [exact Hk|]. rewrite Hev.
        apply Forall2_map_r. intros ev Hin. split; [|reflexivity].
        rewrite forallb_forall in Hsh. now apply Hsh. }
    destruct Hall as (cs' & -> & Hrel). simpl.
    eexists; split; [reflexivity|]. cbv beta iota.
    now rewrite dict_get_set_same.
  - simpl. eexists; split; [reflexivity|]. cbv beta iota.
    rewrite dict_get_set_same. constructor.
Qed.

Lemma items_related_impl (R R' : json -> json -> Prop) report report' :
  (forall ev ev', R ev ev' -> R' ev ev') ->
  items_related R report report' -> items_related R' report report'.
Proof.
  unfold items_related. intros HR H.
  induction H as [|e e' l l' [Hk Hev] _ IH]; constructor; [|exact IH].
  split; [exact Hk|].
  induction Hev; constructor; auto.
Qed.

Lemma cites_nothing_not_found fs root d :
  cites_nothing d -> evidence_found fs root d = false.
Proof.
  unfold cites_nothing, key_missing, evidence_found.
  intros [H|[H|H]]; rewrite H; try reflexivity.
  - destruct (dict_get (lit "snippet") d) as [[]|]; reflexivity.
  - destruct (dict_get (lit "path") d) as [[]|]; reflexivity.
Qed.

(** Whatever the shape of the item, a returned copy carries the flag. *)
Lemma verify_item_ok fs root ev ev' :
  verify_item fs root ev = Ok ev' -> has_verified ev'.
Proof.
  unfold verify_item, has_verified.
  destruct ev as [| | | | | |d]; try discriminate. cbv zeta.
  destruct (full_path root _) as [fp|]; [simpl|discriminate].
  generalize (check_snippet fs fp (dict_get_default (lit "snippet") (JStr []) d)).
  intros v. unfold mark_copy. cbv zeta.
  destruct v.
  - intros H. injection H as <-. do 2 eexists. split; [reflexivity|].
    apply dict_get_set_same.
  - destruct (add_str _ _); [simpl|discriminate].
    intros H. injection H as <-. do 2 eexists. split; [reflexivity|].
    rewrite dict_get_set_other by discriminate. apply dict_get_set_same.
Qed.

Lemma verify_category_ok fs root e e' :
  verify_category fs root e = Ok e' ->
  exists d evs,
    snd e' = JObj d /\ dict_get (lit "evidence") d = Some (JArr evs)
    /\ Forall has_verified evs.
Proof.
  destruct e as [cat details]. unfold verify_category.
  destruct details as [| | | | | |d]; try discriminate.
  destruct (iterate _) as [evs|]; [simpl|discriminate].
  destruct (mapM _ evs) as [new_evs|] eqn:E; [simpl|discriminate].
  intros H. injection H as <-. simpl.
  do 2 eexists. split; [reflexivity|]. split; [apply dict_get_set_same|].
  apply mapM_ok in E.
  induction E as [|x y l l' Hxy _ IH]; constructor; [|exact IH].
  eapply verify_item_ok; eassumption.
Qed.

Lemma verify_evidence_ok fs root report report' :
  verify_evidence fs root report = Ok report' ->
  forall cat details,
    In (cat, details) (categories report') ->
    exists d evs,
      details = JObj d /\ dict_get (lit "evidence") d = Some (JArr evs)
      /\ Forall has_verified evs.
Proof.
  unfold verify_evidence.
  destruct report as [| | | | | |r]; try discriminate.
  destruct (dict_get_default _ _ r) as [| | | | | |cs]; try discriminate.
  destruct (mapM _ cs) as [cs'|] eqn:E; [simpl|discriminate].
  intros H. injection H as <-. unfold categories.
  rewrite dict_get_set_same. apply mapM_ok in E.
  intros cat details Hin.
  induction E as [|e e' l l' Hee _ IH]; [contradiction|].
  destruct Hin as [->|Hin]; [|now apply IH].
  apply verify_category_ok in Hee. exact Hee.
Qed.

(** The specification's round trip, run: the snippet that is in the file is
    verified, the other is not and its note gets the marker. *)
Example round_trip_run :
  verify_evidence Scenario.fs Scenario.root Scenario.round_trip
  = Ok Scenario.round_trip_verified.
Proof. vm_compute. reflexivity. Qed.

(** C1, as amended. For every project root and every report of the data
    model's shape, the Evidence Verifier raises nothing and annotates each
    evidence item: if the cited path resolves to an existing file and the
    trimmed snippet is non-empty and occurs as a literal substring of that
    file's text, the item gets [verified: true] and is otherwise unchanged;
    otherwise it gets [verified: false] and its note becomes the existing
    note without its leading white space, followed by a space (unless
    nothing is left of the note) and the marker "[EVIDENCE NOT FOUND]". *)
Theorem verify_evidence_annotates fs root report :
  report_shape report = true ->
  exists report',
    verify_evidence fs root report = Ok report'
    /\ items_related (annotated fs root) report report'.
Proof.
  intros Hshape.
  destruct (verify_evidence_shaped fs root report Hshape) as (report' & Hrun & Hrel).
  exists report'. split; [exact Hrun|].
  revert Hrel. apply items_related_impl.
  intros ev ev' [Hsh ->]. unfold annotated.
  destruct ev as [| | | | | |d]; try discriminate.
  exists d. split; [reflexivity|].
  simpl. unfold annotate_item.
  destruct (evidence_found fs root d); [reflexivity|].
  now rewrite strip_not_found.
Qed.

Lemma verify_evidence_annotates_round_trip :
  report_shape Scenario.round_trip = true
  /\ exists report',
       verify_evidence Scenario.fs Scenario.root Scenario.round_trip
       = Ok report'
       /\ items_related (annotated Scenario.fs Scenario.root)
            Scenario.round_trip report'.
Proof.
  split; [reflexivity|].
  apply (verify_evidence_annotates Scenario.fs Scenario.root
           Scenario.round_trip).
  reflexivity.
Defined.

(** C1 as stated fails. The note ["  see line 3"] of an unverified item
    becomes ["see line 3 [EVIDENCE NOT FOUND]"], which does not start with
    the existing note: [strip()] on line 165 removed its two leading spaces.
    And a report outside of the data model, here an unverified item whose
    note is the number 3, is not annotated at all: line 165 raises a
    TypeError. *)
Lemma indented_note_not_kept :
  (verify_evidence Scenario.fs Scenario.root Scenario.indented_note
   = Ok Scenario.indented_note_verified
   /\ ~ items_related (annotated_keeping_note Scenario.fs Scenario.root)
          Scenario.indented_note Scenario.indented_note_verified)
  /\ verify_evidence Scenario.fs Scenario.root Scenario.numeric_note
     = Err TypeError.
Proof.
  split; [|vm_compute; reflexivity].
  split; [vm_compute; reflexivity|].
  unfold items_related. intros H.
  inversion H as [|e e' l l' [_ Hitems] _ E1 E2]; subst.
  inversion Hitems as [|ev ev' k k' Hitem _ E1 E2]; subst.
  destruct Hitem as (d & d' & Hd & Hd' & Hrule).
  injection Hd as <-. injection Hd' as <-.
  vm_compute in Hrule.
  destruct Hrule as (_ & note' & Hnote & Hstart & _).
  injection Hnote as <-. discriminate Hstart.
Qed.

(** C10, as amended. For every report of the data model's shape (the
    categories are dictionaries, the evidence a list of dictionaries whose
    path, snippet and note are strings where present) the Evidence Verifier
    raises no exception, whichever keys the items miss. An item without
    path, with an empty path or without snippet is returned with
    [verified = false] and the marker appended to its note, a missing note
    counting as the empty string. An item without note is verified like any
    other: found, it is returned with [verified = true] and no note;
    not found, with [verified = false] and the marker as its note. *)
Theorem verify_evidence_missing_keys fs root report :
  report_shape report = true ->
  exists report',
    verify_evidence fs root report = Ok report'
    /\ items_related (missing_keys_handled fs root) report report'.
Proof.
  intros Hshape.
  destruct (verify_evidence_shaped fs root report Hshape) as (report' & Hrun & Hrel).
  exists report'. split; [exact Hrun|].
  revert Hrel. apply items_related_impl.
  intros ev ev' [Hsh ->]. unfold missing_keys_handled.
  destruct ev as [| | | | | |d]; try discriminate.
  exists d. split; [reflexivity|]. simpl. unfold annotate_item. split.
  - intros Hc. now rewrite (cites_nothing_not_found fs root d Hc).
  - unfold key_missing. intros Hn.
    destruct (evidence_found fs root d); [reflexivity|].
    unfold note_text. rewrite Hn. reflexivity.
Qed.

Lemma verify_evidence_missing_keys_only_note :
  report_shape Scenario.only_note = true
  /\ exists report',
       verify_evidence Scenario.fs Scenario.root Scenario.only_note
       = Ok report'
       /\ items_related (missing_keys_handled Scenario.fs Scenario.root)
            Scenario.only_note report'.
Proof.
  split; [reflexivity|].
  apply (verify_evidence_missing_keys Scenario.fs Scenario.root
           Scenario.only_note).
  reflexivity.
Defined.

(** C10 as stated fails. For a missing note: the item
    [{path: a.py, snippet: foo(bar)}], whose snippet is in the file, is
    returned with [verified = true] and without note or marker. And an item
    without path raises when a key it does have holds no string: with the
    number 3 as its note, line 165 raises a TypeError. *)
Lemma no_note_still_verified :
  (verify_evidence Scenario.fs Scenario.root Scenario.no_note
   = Ok Scenario.no_note_verified
   /\ ~ items_related missing_keys_unverified
          Scenario.no_note Scenario.no_note_verified)
  /\ verify_evidence Scenario.fs Scenario.root Scenario.no_path_numeric_note
     = Err TypeError.
Proof.
  split; [|vm_compute; reflexivity].
  split; [vm_compute; reflexivity|].
  unfold items_related. intros H.
  inversion H as [|e e' l l' [_ Hitems] _ E1 E2]; subst.
  inversion Hitems as [|ev ev' k k' Hitem _ E1 E2]; subst.
  destruct Hitem as (d & d' & Hd & Hd' & Hrule).
  injection Hd as <-. injection Hd' as <-.
  destruct Hrule as (Hv & _); [right; reflexivity|].
  vm_compute in Hv. discriminate Hv.
Qed.

(** ** Searching *)

Lemma index_none c s : index c s = None <-> ~ In c s.
Proof.
  induction s as [|x s IH]; simpl; [tauto|].
  destruct (N.eqb_spec x c) as [->|Hne].
  - split; [discriminate | intros H; exfalso; apply H; now left].
  - destruct (index c s); simpl.
    + split; [discriminate|]. intros H. exfalso.
      assert (Hn : ~ In c s) by (intros Hin; apply H; now right).
      apply IH in Hn. discriminate.
    + split; [|reflexivity]. intros _ [E|Hin]; [congruence|].
      now apply (proj1 IH).
Qed.

Lemma rindex_none c s : rindex c s = None <-> ~ In c s.
Proof.
  induction s as [|x s IH]; simpl; [tauto|].
  destruct (rindex c s).
  - split; [discriminate|]. intros H. exfalso.
    assert (Hn : ~ In c s) by (intros Hin; apply H; now right).
    apply IH in Hn. discriminate.
  - destruct (N.eqb_spec x c) as [->|Hne].
    + split; [discriminate | intros H; exfalso; apply H; now left].
    + split; [|reflexivity]. intros _ [E|Hin]; [congruence|].
      now apply (proj1 IH).
Qed.

Lemma index_app_first c a b :
  ~ In c a -> index c (a ++ c :: b) = Some (length a).
Proof.
  induction a as [|x a IH]; simpl; intros H.
  - now rewrite N.eqb_refl.
  - destruct (N.eqb_spec x c) as [->|Hne]; [exfalso; apply H; now left|].
    rewrite IH by (intros Hin; apply H; now right). reflexivity.
Qed.

Lemma rindex_app_last c a b :
  ~ In c b -> rindex c (a ++ c :: b) = Some (length a).
Proof.
  intros Hb. apply rindex_none in Hb.
  induction a as [|x a IH]; simpl.
  - now rewrite Hb, N.eqb_refl.
  - now rewrite IH.
Qed.

Lemma In_lstrip c s : In c (lstrip s) -> In c s.
Proof.
  induction s as [|x s IH]; simpl; [tauto|].
  destruct (is_space x); [intros H; right; now apply IH | tauto].
Qed.

Lemma In_rstrip c s : In c (rstrip s) -> In c s.
Proof.
  induction s as [|x s IH]; simpl; [tauto|].
  destruct (rstrip s) as [|y t].
  - destruct (is_space x); simpl; tauto.
  - intros [E|Hin]; [now left | right; now apply IH].
Qed.

Lemma In_strip c s : In c (strip s) -> In c s.
Proof. intros H. now apply In_lstrip, In_rstrip. Qed.

Lemma rstrip_cons_solid c s : is_space c = false -> rstrip (c :: s) = c :: rstrip s.
Proof. intros Hc. simpl. rewrite Hc. now destruct (rstrip s). Qed.

Lemma slice_middle a b c :
  slice (length a) (length (a ++ b)) (a ++ b ++ c) = b.
Proof.
  unfold slice. rewrite length_app.
  replace (length a + length b - length a) with (length b) by lia.
  rewrite skipn_app, skipn_all, Nat.sub_diag. simpl.
  rewrite firstn_app, firstn_all, Nat.sub_diag. simpl.
  apply app_nil_r.
Qed.

(** A text that starts with [{] and ends with [}]. *)
Lemma braced_shape obj :
  startswith [ch "{"] obj = true -> endswith [ch "}"] obj = true ->
  exists inner, obj = ch "{" :: inner ++ [ch "}"].
Proof.
  unfold endswith. intros Hs He.
  destruct obj as [|c obj]; [discriminate|].
  change (N.eqb (ch "{") c && true = true) in Hs.
  rewrite andb_true_r in Hs. apply N.eqb_eq in Hs. subst c.
  destruct (rev (ch "{" :: obj)) as [|l r] eqn:Er; [discriminate|].
  change (N.eqb (ch "}") l && true = true) in He.
  rewrite andb_true_r in He. apply N.eqb_eq in He. subst l.
  apply (f_equal (@rev _)) in Er. rewrite rev_involutive in Er. simpl in Er.
  destruct (rev r) as [|x t] eqn:Ex; simpl in Er.
  - discriminate.
  - injection Er as <- ->. now exists t.
Qed.

Lemma strip_wrapped a c1 m c2 b :
  is_space c1 = false -> is_space c2 = false ->
  strip (a ++ (c1 :: m ++ [c2]) ++ b)
  = lstrip a ++ (c1 :: m ++ [c2]) ++ rstrip b.
Proof.
  intros H1 H2. unfold strip.
  rewrite <- app_comm_cons, lstrip_app_solid by exact H1.
  replace (lstrip a ++ c1 :: (m ++ [c2]) ++ b)
    with ((lstrip a ++ c1 :: m) ++ c2 :: b)
    by (cbn [app]; rewrite <- ?app_assoc; reflexivity).
  rewrite rstrip_app_kept
    by (rewrite rstrip_cons_solid by exact H2; discriminate).
  rewrite rstrip_cons_solid by exact H2.
  cbn [app]. rewrite <- ?app_assoc. reflexivity.
Qed.

Lemma bracket_slice_wrapped a m b :
  ~ In (ch "{") a -> ~ In (ch "}") b ->
  bracket_slice (a ++ (ch "{" :: m ++ [ch "}"]) ++ b)
  = Some (ch "{" :: m ++ [ch "}"]).
Proof.
  intros Ha Hb. unfold bracket_slice.
  rewrite <- app_comm_cons, index_app_first by exact Ha.
  replace (a ++ ch "{" :: (m ++ [ch "}"]) ++ b)
    with ((a ++ ch "{" :: m) ++ ch "}" :: b)
    by (cbn [app]; rewrite <- ?app_assoc; reflexivity).
  rewrite rindex_app_last by exact Hb.
  replace ((a ++ ch "{" :: m) ++ ch "}" :: b)
    with (a ++ (ch "{" :: m ++ [ch "}"]) ++ b)
    by (cbn [app]; rewrite <- ?app_assoc; reflexivity).
  replace (length (a ++ ch "{" :: m) + 1)
    with (length (a ++ (ch "{" :: m ++ [ch "}"])))
    by (rewrite !length_app; cbn [length]; rewrite length_app;
        cbn [length]; lia).
  now rewrite slice_middle.
Qed.

(** In a reply made of prose, an object and prose, the slice from the
    first [{] to the last [}] of the trimmed text is the object. *)
Lemma bracket_slice_prose before obj after :
  index (ch "{") before = None -> rindex (ch "}") after = None ->
  startswith [ch "{"] obj = true -> endswith [ch "}"] obj = true ->
  bracket_slice (strip (before ++ obj ++ after)) = Some obj.
Proof.
  intros Hb Ha Hs He.
  destruct (braced_shape obj Hs He) as (inner & ->).
  apply index_none in Hb. apply rindex_none in Ha.
  rewrite strip_wrapped by reflexivity.
  apply bracket_slice_wrapped.
  - intros Hin. apply Hb. now apply In_lstrip.
  - intros Hin. apply Ha. now apply In_rstrip.
Qed.

(** ** Response Parser *)

(** C2, as amended. For every raw output the parser first parses the slice
    from the first [{] to the last [}] of the trimmed text and returns its
    value; if there is no [{] or no [}], or if parsing the slice fails, the
    result is that of parsing the whole trimmed text: its value, or the
    diagnostic error. In particular a raw text made of prose without [{], a
    valid JSON object and prose without [}] is parsed to that object, which
    is the slice. *)
Theorem parse_response_two_stage L raw :
  let text := strip raw in
  let whole :=
    match json_loads L text with
    | inr v => Ok v
    | inl e =>
        Err (RuntimeError
               (lit "Failed to parse JSON from model output. Raw output first 2000 chars:"
                ++ [nl] ++ first_chars 2000 text ++ [nl; nl]
                ++ lit "Error:" ++ e))
    end in
  (forall i j v,
      index (ch "{") text = Some i -> rindex (ch "}") text = Some j ->
      json_loads L (slice i (j + 1) text) = inr v ->
      parse_response L raw = Ok v)
  /\ (forall i j e,
        index (ch "{") text = Some i -> rindex (ch "}") text = Some j ->
        json_loads L (slice i (j + 1) text) = inl e ->
        parse_response L raw = whole)
  /\ (index (ch "{") text = None \/ rindex (ch "}") text = None ->
      parse_response L raw = whole)
  /\ (forall before obj after v,
        raw = before ++ obj ++ after ->
        index (ch "{") before = None ->
        rindex (ch "}") after = None ->
        startswith [ch "{"] obj = true ->
        endswith [ch "}"] obj = true ->
        json_loads L obj = inr v ->
        (exists i j,
            index (ch "{") text = Some i /\ rindex (ch "}") text = Some j
            /\ slice i (j + 1) text = obj)
        /\ parse_response L raw = Ok v).
Proof.
  cbv zeta. unfold parse_response, bracket_slice, loads, try_except.
  split; [|split; [|split]].
  - intros i j v -> -> ->. reflexivity.
  - intros i j e -> -> ->. reflexivity.
  - intros [->| ->]; [reflexivity|].
    now destruct (index (ch "{") (strip raw)).
  - intros before obj after v -> Hb Ha Hs He Hv.
    pose proof (bracket_slice_prose before obj after Hb Ha Hs He) as Hslice.
    unfold bracket_slice in Hslice.
    destruct (index (ch "{") (strip (before ++ obj ++ after))) as [i|];
      [|discriminate].
    destruct (rindex (ch "}") (strip (before ++ obj ++ after))) as [j|];
      [|discriminate].
    injection Hslice as Hslice. rewrite Hslice, Hv. split; [|reflexivity].
    now exists i, j.
Qed.

(** The specification's example of a reply wrapped in prose. *)
Lemma parse_response_two_stage_reply :
  (exists i j,
      index (ch "{") (strip Scenario.reply) = Some i
      /\ rindex (ch "}") (strip Scenario.reply) = Some j
      /\ slice i (j + 1) (strip Scenario.reply) = Scenario.reply_object)
  /\ parse_response Ref.lib Scenario.reply = Ok Scenario.round_trip.
Proof.
  apply (proj2 (proj2 (proj2 (parse_response_two_stage Ref.lib
                                Scenario.reply)))
           (lit "Sure! Here you go:" ++ [nl]) Scenario.reply_object
           ([nl] ++ lit "Thanks!") Scenario.round_trip);
    vm_compute; reflexivity.
Defined.

(** C2 as stated fails when the prose holds a brace of its own: the slice
    then starts in the prose, neither the slice nor the whole text is JSON,
    and the parser raises its diagnostic although the text is prose followed
    by a single valid JSON object. *)
Lemma prose_with_brace_not_parsed :
  json_loads Ref.lib Scenario.reply_object = inr Scenario.round_trip
  /\ index (ch "{") (strip Scenario.braced_prose_reply) = Some 4
  /\ rindex (ch "}") (strip Scenario.braced_prose_reply)
     = Some (length Scenario.braced_prose_reply - 1)
  /\ slice 4 (length Scenario.braced_prose_reply)
       (strip Scenario.braced_prose_reply)
     = lit "{x} here: " ++ Scenario.reply_object
  /\ parse_response Ref.lib Scenario.braced_prose_reply
     = Err (parse_failure Scenario.braced_prose_reply
              Scenario.expecting_value).
Proof. repeat split; vm_compute; reflexivity. Qed.

Lemma bracket_slice_braceless text :
  index (ch "{") text = None -> bracket_slice text = None.
Proof. unfold bracket_slice. now intros ->. Qed.

Lemma index_strip_none c s : index c s = None -> index c (strip s) = None.
Proof.
  rewrite !index_none. intros H Hin. apply H. now apply In_strip.
Qed.

(** A parsed value that is no dict stops the verifier at its first line. *)
Lemma verify_evidence_not_dict fs root v :
  (forall d, v <> JObj d) -> verify_evidence fs root v = Err AttributeError.
Proof.
  intros H. destruct v; try reflexivity. now destruct (H fields).
Qed.

(** ** The reference decoder yields a dict only from a text with a brace *)









(** ** File Selector *)

(** Induction on trees, with the hypothesis for every entry of a
    directory. *)
Lemma node_induction (P : node -> Prop) :
  (forall f, P (File f)) ->
  (forall entries, Forall (fun e => P (snd e)) entries -> P (Dir entries)) ->
  forall n, P n.
Proof.
  intros HFile HDir.
  exact (fix go (n : node) : P n :=
           match n with
           | File f => HFile f
           | Dir entries =>
               HDir entries
                 ((fix all (l : list (str * node))
                     : Forall (fun e => P (snd e)) l :=
                     match l with
                     | [] => Forall_nil _
                     | e :: l' => Forall_cons e (go (snd e)) (all l')
                     end) entries)
           end).
Qed.

(** Every file the walk lists is a file of the tree, under the path the
    selector gives it. *)
Lemma walk_tree_files n :
  forall rel rel' files fname f,
    In (rel', files) (walk rel n) -> In (fname, f) files ->
    In (rel_join rel' fname, f) (tree_files rel n).
Proof.
  induction n as [f0|entries IH] using node_induction;
    intros rel rel' files fname f Hw Hf; [contradiction|].
  cbn [walk tree_files] in *. apply in_flat_map.
  destruct Hw as [E|Hw].
  - injection E as <- <-. unfold files_in in Hf.
    apply in_flat_map in Hf as (e & He & Hf). exists e. split; [exact He|].
    destruct (snd e) as [f1|]; [|contradiction].
    destruct Hf as [E|[]]. injection E as <- <-. now left.
  - apply in_flat_map in Hw as (e & He & Hw). exists e. split; [exact He|].
    rewrite Forall_forall in IH. specialize (IH e He).
    destruct (snd e) as [|sub] eqn:Es; [contradiction|].
    destruct (str_mem (fst e) SKIPPED_DIRS); [contradiction|].
    eapply IH; eassumption.
Qed.

Section SelectorFacts.

Variable L : pylib.
Variable include_exts : option (list str).
Variable max_files : nat.
Variable max_size_bytes : Z.

Let scan_files' := scan_files L include_exts (Z.of_nat max_files) max_size_bytes.
Let scan_dirs' := scan_dirs L include_exts (Z.of_nat max_files) max_size_bytes.

Lemma full_spec collected :
  full (Z.of_nat max_files) collected = true <-> max_files <= length collected.
Proof. unfold full. rewrite Z.leb_le. lia. Qed.

Lemma scan_files_length rel files collected :
  length collected <= max_files ->
  length (scan_files' rel files collected) <= max_files.
Proof.
  revert collected. induction files as [|[fname f] files IH];
    intros collected Hlen; simpl; [exact Hlen|].
  destruct (full _ collected) eqn:Efull; [exact Hlen|].
  destruct (negb _); [now apply IH|].
  destruct (getsize f) as [size|]; [|now apply IH].
  destruct (max_size_bytes <? size)%Z; [now apply IH|].
  destruct (file_text f) as [text|]; [|now apply IH].
  apply IH. rewrite length_app. simpl.
  assert (~ max_files <= length collected)
    by (rewrite <- full_spec; congruence).
  lia.
Qed.

Lemma scan_dirs_length walked collected :
  length collected <= max_files ->
  length (scan_dirs' walked collected) <= max_files.
Proof.
  revert collected. induction walked as [|[rel files] walked IH];
    intros collected Hlen; simpl; [exact Hlen|].
  pose proof (scan_files_length rel files collected Hlen) as H.
  fold scan_files'.
  destruct (full _ (scan_files' rel files collected)); [exact H|].
  now apply IH.
Qed.

Lemma scan_files_read_from all rel files collected :
  (forall fname f, In (fname, f) files -> In (rel_join rel fname, f) all) ->
  Forall (read_from max_size_bytes all) collected ->
  Forall (read_from max_size_bytes all) (scan_files' rel files collected).
Proof.
  revert collected. induction files as [|[fname f] files IH];
    intros collected Hin Hall; simpl; [exact Hall|].
  assert (Hin' : forall fname f,
             In (fname, f) files -> In (rel_join rel fname, f) all)
    by (intros; apply Hin; now right).
  destruct (full _ collected); [exact Hall|].
  destruct (negb _); [now apply IH|].
  destruct (getsize f) as [size|] eqn:Esize; [|now apply IH].
  destruct (max_size_bytes <? size)%Z eqn:Ebig; [now apply IH|].
  destruct (file_text f) as [text|] eqn:Etext; [|now apply IH].
  apply IH; [exact Hin'|].
  apply Forall_app. split; [exact Hall|]. constructor; [|constructor].
  exists f, size. simpl. repeat split; try assumption.
  - apply Hin. now left.
  - apply Z.ltb_ge in Ebig. exact Ebig.
Qed.

Lemma scan_dirs_read_from all walked collected :
  (forall rel files fname f,
      In (rel, files) walked -> In (fname, f) files ->
      In (rel_join rel fname, f) all) ->
  Forall (read_from max_size_bytes all) collected ->
  Forall (read_from max_size_bytes all) (scan_dirs' walked collected).
Proof.
  revert collected. induction walked as [|[rel files] walked IH];
    intros collected Hin Hall; simpl; [exact Hall|].
  fold scan_files'.
  assert (H : Forall (read_from max_size_bytes all) (scan_files' rel files collected)).
  { apply scan_files_read_from; [|exact Hall].
    intros fname f Hf. apply (Hin rel files); [now left | exact Hf]. }
  destruct (full _ (scan_files' rel files collected)); [exact H|].
  apply IH; [|exact H].
  intros rel0 files0 fname f Hw Hf. apply (Hin rel0 files0); [now right | exact Hf].
Qed.

(** *** The sort *)

Lemma insert_entry_perm x l : Permutation (insert_entry L x l) (x :: l).
Proof.
  induction l as [|y l IH]; simpl; [reflexivity|].
  destruct (key_leb L x y); [reflexivity|].
  rewrite IH. apply perm_swap.
Qed.

Lemma sort_entries_perm l : Permutation (sort_entries L l) l.
Proof.
  induction l as [|x l IH]; simpl; [reflexivity|].
  rewrite insert_entry_perm. now constructor.
Qed.

End SelectorFacts.

Lemma str_compare_refl a : str_compare a a = Eq.
Proof. induction a as [|x a IH]; simpl; [reflexivity|]. now rewrite N.compare_refl. Qed.

Lemma str_compare_antisym a b : str_compare b a = CompOpp (str_compare a b).
Proof.
  revert b. induction a as [|x a IH]; intros [|y b]; simpl; try reflexivity.
  rewrite (N.compare_antisym x y).
  destruct (N.compare x y); simpl; [apply IH | reflexivity | reflexivity].
Qed.

Lemma str_leb_total a b : str_leb a b = false -> str_leb b a = true.
Proof.
  unfold str_leb. rewrite (str_compare_antisym a b).
  destruct (str_compare a b); simpl; congruence.
Qed.

Lemma str_compare_trans_le a :
  forall b c, str_compare a b <> Gt -> str_compare b c <> Gt ->
              str_compare a c <> Gt.
Proof.
  induction a as [|x a IH]; intros [|y b] [|z c]; simpl;
    try congruence.
  destruct (N.compare_spec x y), (N.compare_spec y z), (N.compare_spec x z);
    subst; try congruence; try lia; intros; eauto.
Qed.

Lemma str_leb_trans a b c :
  str_leb a b = true -> str_leb b c = true -> str_leb a c = true.
Proof.
  unfold str_leb. intros H1 H2.
  pose proof (str_compare_trans_le a b c) as H.
  destruct (str_compare a b), (str_compare b c), (str_compare a c);
    try reflexivity; try discriminate; exfalso; apply H; congruence.
Qed.

Section SortFacts.

Variable L : pylib.

Lemma key_leb_total a b : key_leb L a b = false -> key_leb L b a = true.
Proof.
  unfold key_leb. intros H.
  apply orb_false_elim in H as [H1 H2]. apply Nat.ltb_ge in H1.
  destruct (Nat.ltb_spec (readme_rank L b) (readme_rank L a)); [reflexivity|].
  assert (E : readme_rank L a = readme_rank L b) by lia.
  rewrite E, Nat.eqb_refl in *. simpl in *. now apply str_leb_total.
Qed.

Lemma key_leb_trans a b c :
  key_leb L a b = true -> key_leb L b c = true -> key_leb L a c = true.
Proof.
  unfold key_leb. intros H1 H2.
  apply orb_true_iff in H1, H2. apply orb_true_iff.
  rewrite !andb_true_iff, !Nat.ltb_lt, !Nat.eqb_eq in *.
  destruct H1 as [H1|[H1 H1']], H2 as [H2|[H2 H2']].
  - left. lia.
  - left. lia.
  - left. lia.
  - right. split; [lia|]. eapply str_leb_trans; eassumption.
Qed.

Lemma insert_entry_sorted x l :
  StronglySorted (fun a b => key_leb L a b = true) l ->
  StronglySorted (fun a b => key_leb L a b = true) (insert_entry L x l).
Proof.
  induction 1 as [|y l Hs IH Hy]; simpl.
  - constructor; constructor.
  - destruct (key_leb L x y) eqn:E.
    + constructor; [now constructor|]. constructor; [exact E|].
      rewrite Forall_forall in *. intros z Hz.
      eapply key_leb_trans; [exact E | now apply Hy].
    + constructor; [exact IH|].
      rewrite Forall_forall in *. intros z Hz.
      apply (Permutation_in _ (insert_entry_perm L x l)) in Hz.
      destruct Hz as [<-|Hz]; [now apply key_leb_total | now apply Hy].
Qed.

Lemma sort_entries_sorted l :
  StronglySorted (fun a b => key_leb L a b = true) (sort_entries L l).
Proof.
  induction l as [|x l IH]; simpl; [constructor|].
  now apply insert_entry_sorted.
Qed.

Lemma sorted_nth {A} (R : A -> A -> Prop) l :
  StronglySorted R l ->
  forall i j a b,
    i < j -> nth_error l i = Some a -> nth_error l j = Some b -> R a b.
Proof.
  induction 1 as [|x l Hs IH Hx]; intros i j a b Hij Hi Hj.
  - destruct i; discriminate.
  - destruct j as [|j]; [lia|]. simpl in Hj.
    destruct i as [|i]; simpl in Hi.
    + injection Hi as <-. rewrite Forall_forall in Hx.
      apply Hx. eapply nth_error_In; eassumption.
    + apply (IH i j); [lia | assumption | assumption].
Qed.

End SortFacts.

(** The selection on the scenario's tree: the oversized, the excluded, the
    unreadable and the pruned files are left out, the README of the root
    comes first. *)
Example gather_files_run :
  gather_files Ref.lib (Some INCLUDE_EXTS) 80 200000 Scenario.tree
  = Scenario.selected.
Proof. vm_compute. reflexivity. Qed.

(** C4. For every project tree, every set of allowed extensions, every
    maximal file count and every byte ceiling, the File Selector returns at
    most that many entries, and every returned entry is the path and text of
    a file of the tree whose size on disk does not exceed the ceiling. *)
Theorem gather_files_bounded L include_exts (max_files : nat) max_size_bytes
    project_tree :
  let out :=
    gather_files L include_exts (Z.of_nat max_files) max_size_bytes
      project_tree in
  length out <= max_files
  /\ forall e,
       In e out ->
       exists f size,
         In (path e, f) (tree_files [] project_tree)
         /\ getsize f = Some size /\ (size <= max_size_bytes)%Z
         /\ file_text f = Some (content e).
Proof.
  cbv zeta. unfold gather_files.
  set (collected := scan_dirs L include_exts (Z.of_nat max_files)
                      max_size_bytes (walk [] project_tree) []).
  pose proof (sort_entries_perm L collected) as Hperm.
  split.
  - rewrite (Permutation_length Hperm).
    apply scan_dirs_length. simpl. lia.
  - intros e He. apply (Permutation_in _ Hperm) in He.
    assert (H : Forall (read_from max_size_bytes
                          (tree_files [] project_tree)) collected).
    { apply scan_dirs_read_from; [|constructor].
      intros rel files fname f. apply walk_tree_files. }
    rewrite Forall_forall in H. exact (H e He).
Qed.

Lemma gather_files_bounded_tree :
  length (gather_files Ref.lib (Some INCLUDE_EXTS) (Z.of_nat 80) 200000
            Scenario.tree) <= 80
  /\ exists f size,
       In (lit "docs/README.md", f) (tree_files [] Scenario.tree)
       /\ getsize f = Some size /\ (size <= 200000)%Z
       /\ file_text f = Some (lit "# Docs").
Proof.
  destruct (gather_files_bounded Ref.lib (Some INCLUDE_EXTS) 80 200000
              Scenario.tree) as [Hlen Hin].
  split; [exact Hlen|].
  apply (Hin {| path := lit "docs/README.md"; content := lit "# Docs" |}).
  vm_compute. auto.
Defined.

Lemma str_compare_eq a b : str_compare a b = Eq -> a = b.
Proof.
  revert b. induction a as [|x a IH]; intros [|y b]; simpl;
    try discriminate; [reflexivity|].
  destruct (N.compare_spec x y) as [->| |]; try discriminate.
  intros H. now rewrite (IH b H).
Qed.

(** The key of line 59 distinguishes any two paths. *)
Lemma key_leb_antisym L a b :
  key_leb L a b = true -> key_leb L b a = true -> path a = path b.
Proof.
  unfold key_leb. intros H1 H2.
  apply orb_true_iff in H1, H2.
  rewrite !andb_true_iff, !Nat.ltb_lt, !Nat.eqb_eq in *.
  destruct H1 as [H1|[E1 H1]], H2 as [H2|[E2 H2]]; try lia.
  unfold str_leb in H1, H2. rewrite (str_compare_antisym (path a)) in H2.
  apply str_compare_eq.
  destruct (str_compare (path a) (path b)); simpl in *; congruence.
Qed.

Lemma NoDup_map_eq {A B} (f : A -> B) l a b :
  NoDup (map f l) -> In a l -> In b l -> f a = f b -> a = b.
Proof.
  induction l as [|x l IH]; simpl; [tauto|].
  intros Hnd Ha Hb E. inversion Hnd as [|? ? Hx Hl]; subst.
  destruct Ha as [->|Ha], Hb as [->|Hb]; try reflexivity.
  - exfalso. apply Hx. rewrite E. now apply in_map.
  - exfalso. apply Hx. rewrite <- E. now apply in_map.
  - now apply IH.
Qed.

(** A list has one sorted arrangement at most, when the order tells its
    elements apart. *)
Lemma sorted_perm_eq {A} (R : A -> A -> Prop) l1 :
  forall l2,
    StronglySorted R l1 -> StronglySorted R l2 -> Permutation l1 l2 ->
    (forall a b, In a l1 -> In b l1 -> R a b -> R b a -> a = b) ->
    l1 = l2.
Proof.
  induction l1 as [|a l1 IH]; intros l2 H1 H2 Hp Hanti.
  - apply Permutation_nil in Hp. now subst.
  - destruct l2 as [|b l2].
    { apply Permutation_sym, Permutation_nil in Hp. discriminate. }
    inversion H1 as [|? ? Hs1 Ha]; subst.
    inversion H2 as [|? ? Hs2 Hb]; subst.
    rewrite Forall_forall in Ha, Hb.
    assert (E : a = b).
    { assert (Hin_a : In a (b :: l2))
        by (apply (Permutation_in _ Hp); now left).
      assert (Hin_b : In b (a :: l1))
        by (apply (Permutation_in _ (Permutation_sym Hp)); now left).
      destruct Hin_a as [->|Hin_a]; [reflexivity|].
      destruct Hin_b as [->|Hin_b]; [reflexivity|].
      apply Hanti; [now left | now right | now apply Ha | now apply Hb]. }
    subst b. f_equal. apply IH; try assumption.
    + now apply Permutation_cons_inv in Hp.
    + intros x y Hx Hy. apply Hanti; now right.
Qed.

(** C5, as amended. For every project tree the output of the File Selector
    is sorted by the key of line 59: every entry whose relative path starts
    with "readme", whatever the case, comes before every entry whose path
    does not, and within each of the two groups the paths ascend in lexical
    order. The order is deterministic: it depends on which entries were
    collected only, so that two runs that collect the same entries, their
    paths pairwise distinct, return the same list in the same order,
    whatever the order in which the directories were listed. *)
Theorem gather_files_sorted L include_exts max_files max_size_bytes
    project_tree :
  let collected t :=
    scan_dirs L include_exts max_files max_size_bytes (walk [] t) [] in
  let out :=
    gather_files L include_exts max_files max_size_bytes project_tree in
  let readme e := startswith (lit "readme") (str_lower L (path e)) in
  (forall i j a b,
      i < j -> nth_error out i = Some a -> nth_error out j = Some b ->
      (readme b = true -> readme a = true)
      /\ (readme a = readme b -> str_leb (path a) (path b) = true))
  /\ (forall relisted,
        Permutation (collected relisted) (collected project_tree) ->
        NoDup (map path (collected project_tree)) ->
        gather_files L include_exts max_files max_size_bytes relisted = out).
Proof.
  cbv zeta. unfold gather_files. split.
  - intros i j a b Hij Hi Hj.
    pose proof (sorted_nth _ _ (sort_entries_sorted L _) i j a b Hij Hi Hj)
      as H.
    unfold key_leb, readme_rank, readme_path in H.
    destruct (startswith (lit "readme") (str_lower L (path a))),
             (startswith (lit "readme") (str_lower L (path b)));
      simpl in H; split; intros; try congruence; try discriminate.
  - intros relisted Hperm Hpaths.
    set (c1 := scan_dirs L include_exts max_files max_size_bytes
                 (walk [] relisted) []) in *.
    set (c2 := scan_dirs L include_exts max_files max_size_bytes
                 (walk [] project_tree) []) in *.
    apply (sorted_perm_eq (fun a b => key_leb L a b = true));
      try apply sort_entries_sorted.
    + rewrite (sort_entries_perm L c1), Hperm.
      symmetry. apply sort_entries_perm.
    + intros a b Ha Hb Hab Hba.
      assert (Hc1 : Permutation (sort_entries L c1) c2)
        by (rewrite (sort_entries_perm L c1); exact Hperm).
      apply (NoDup_map_eq path c2); try assumption.
      * now apply (Permutation_in _ Hc1).
      * now apply (Permutation_in _ Hc1).
      * now apply (key_leb_antisym L).
Qed.

Lemma gather_files_sorted_tree :
  ((startswith (lit "readme") (Ref.lower (lit "docs/README.md")) = true ->
    startswith (lit "readme") (Ref.lower (lit "app.py")) = true)
   /\ (startswith (lit "readme") (Ref.lower (lit "app.py"))
       = startswith (lit "readme") (Ref.lower (lit "docs/README.md")) ->
       str_leb (lit "app.py") (lit "docs/README.md") = true))
  /\ gather_files Ref.lib (Some INCLUDE_EXTS) 80 200000
       Scenario.tree_relisted
     = gather_files Ref.lib (Some INCLUDE_EXTS) 80 200000 Scenario.tree.
Proof.
  destruct (gather_files_sorted Ref.lib (Some INCLUDE_EXTS) 80 200000
              Scenario.tree) as [Hsorted Hsame].
  split.
  - apply (Hsorted 1 2
             {| path := lit "app.py"; content := lit "y = foo(bar)" |}
             {| path := lit "docs/README.md"; content := lit "# Docs" |});
      [lia | vm_compute; reflexivity | vm_compute; reflexivity].
  - apply Hsame.
    + vm_compute. apply perm_swap.
    + vm_compute. repeat constructor; simpl; intuition discriminate.
Defined.

(** C5 as stated fails for a README in a subdirectory: the key looks at
    the start of the relative path, so [docs/README.md] is sorted among the
    other entries, after [app.py]. *)
Lemma readme_in_subdirectory_not_first :
  gather_files Ref.lib (Some INCLUDE_EXTS) 80 200000 Scenario.tree
  = Scenario.selected
  /\ ~ readme_named_first Ref.lib Scenario.selected.
Proof.
  split; [vm_compute; reflexivity|].
  intros H.
  specialize (H 2 1 _ _ eq_refl eq_refl eq_refl eq_refl). lia.
Qed.

(** ** Prompt Builder *)

Lemma startswith_before_other old m a r :
  Forall (fun c => c <> m) old ->
  startswith old (a ++ m :: r) = startswith old a.
Proof.
  intros H. revert a. induction H as [|x old Hx _ IH]; intros a.
  - reflexivity.
  - destruct a as [|y a]; simpl.
    + destruct (N.eqb_spec x m); [contradiction | reflexivity].
    + now rewrite IH.
Qed.

Lemma startswith_length p s : startswith p s = true -> length p <= length s.
Proof.
  revert s. induction p as [|x p IH]; intros [|y s]; simpl;
    try discriminate; try lia.
  intros H. apply andb_prop in H as [_ H]. apply IH in H. lia.
Qed.

(** A character that does not occur in [old] is copied and separates the
    replacements on its two sides. *)
Lemma replace_from_separator old new m a r k :
  old <> [] -> Forall (fun c => c <> m) old -> k <= length a ->
  replace_from old new (a ++ m :: r) k
  = replace_from old new a k ++ m :: replace_from old new r 0.
Proof.
  intros Hne Hold. revert k. induction a as [|c a IH]; intros k Hk.
  - assert (k = 0) by (simpl in Hk; lia). subst k.
    cbn [app replace_from].
    pose proof (startswith_before_other old m [] r Hold) as E.
    cbn [app] in E. rewrite E.
    destruct old; [contradiction | reflexivity].
  - cbn [app replace_from]. destruct k as [|k].
    + change (c :: a ++ m :: r) with ((c :: a) ++ m :: r).
      rewrite (startswith_before_other old m (c :: a) r Hold).
      destruct (startswith old (c :: a)) eqn:E.
      * apply startswith_length in E. simpl in E.
        rewrite IH by lia. now rewrite app_assoc.
      * rewrite IH by lia. reflexivity.
    + apply IH. simpl in Hk. lia.
Qed.

Lemma replace_from_solid_prefix old new mid r :
  old <> [] -> Forall (fun m => Forall (fun c => c <> m) old) mid ->
  replace_from old new (mid ++ r) 0 = mid ++ replace_from old new r 0.
Proof.
  intros Hne H. induction H as [|m mid Hm _ IH]; [reflexivity|].
  pose proof (replace_from_separator old new m [] (mid ++ r) 0 Hne Hm
                (Nat.le_refl 0)) as E.
  cbn [app replace_from] in E |- *. rewrite E. now rewrite IH.
Qed.

Lemma escape_fences_unfold s :
  escape_fences s = replace_from FENCE ESCAPED_FENCE s 0.
Proof. reflexivity. Qed.

Lemma FENCE_backticks : FENCE = [96; 96; 96]%N.
Proof. reflexivity. Qed.

(** The elision marker contains no backtick: the fences on its two sides
    are escaped independently. *)
Lemma escape_fences_snipped a b :
  escape_fences (a ++ SNIPPED_MIDDLE ++ b)
  = escape_fences a ++ SNIPPED_MIDDLE ++ escape_fences b.
Proof.
  rewrite !escape_fences_unfold, FENCE_backticks.
  change SNIPPED_MIDDLE with ([nl] ++ tl SNIPPED_MIDDLE).
  rewrite <- !app_assoc. cbn [app].
  rewrite replace_from_separator;
    [| discriminate | repeat constructor; discriminate | lia].
  rewrite (replace_from_solid_prefix _ _ (tl SNIPPED_MIDDLE) b);
    [reflexivity | discriminate |].
  vm_compute. repeat constructor; discriminate.
Qed.

Lemma first_chars_length n s :
  (0 <= n <= len s)%Z -> len (first_chars n s) = n.
Proof.
  unfold len, first_chars. intros H. rewrite length_firstn. lia.
Qed.

Lemma last_chars_length n s :
  (0 <= n <= len s)%Z -> len (last_chars n s) = n.
Proof.
  unfold len, last_chars. intros H. rewrite length_skipn. lia.
Qed.

(** The block of one entry, lines 111-117, by the length of its content. *)
Lemma render_block_cases f :
  ((6000 < len (content f))%Z ->
   render_block f
   = file_block f (escape_fences (first_chars 3000 (content f))
                   ++ SNIPPED_MIDDLE
                   ++ escape_fences (last_chars 3000 (content f)))
   /\ len (first_chars 3000 (content f)) = 3000%Z
   /\ len (last_chars 3000 (content f)) = 3000%Z)
  /\ ((len (content f) <= 6000)%Z ->
      render_block f = file_block f (escape_fences (content f)))
  /\ (len (content f) = 6000%Z ->
      render_block f = file_block f (escape_fences (content f)))
  /\ (len (content f) = 6001%Z ->
      render_block f
      = file_block f (escape_fences (first_chars 3000 (content f))
                      ++ SNIPPED_MIDDLE
                      ++ escape_fences (skipn 3001 (content f)))).
Proof.
  assert (Hlong : (6000 < len (content f))%Z ->
            render_block f
            = file_block f (escape_fences (first_chars 3000 (content f))
                            ++ SNIPPED_MIDDLE
                            ++ escape_fences (last_chars 3000 (content f)))).
  { intros H. unfold render_block, truncate_middle. cbv zeta.
    apply Z.ltb_lt in H. rewrite H. now rewrite escape_fences_snipped. }
  assert (Hshort : (len (content f) <= 6000)%Z ->
            render_block f = file_block f (escape_fences (content f))).
  { intros H. unfold render_block, truncate_middle. cbv zeta.
    apply Z.ltb_ge in H. now rewrite H. }
  repeat split.
  - now apply Hlong.
  - apply first_chars_length. lia.
  - apply last_chars_length. lia.
  - exact Hshort.
  - intros H. apply Hshort. lia.
  - intros H. rewrite Hlong by lia. unfold last_chars.
    replace (length (content f) - Z.to_nat 3000) with 3001
      by (unfold len in H; lia).
    reflexivity.
Qed.

Lemma replace_from_no_match old new s :
  contains old s = false -> old <> [] -> replace_from old new s 0 = s.
Proof.
  intros H Hne. induction s as [|c s IH]; [reflexivity|].
  cbn [contains] in H. apply orb_false_elim in H as [H1 H2].
  cbn [replace_from]. rewrite H1. now rewrite IH.
Qed.

(** C7, as amended. For every FileEntry the Prompt Builder renders, the
    block is the line [---FILE: <path>---], the rendered content and a
    newline. A content of more than 6000 characters is rendered as its first
    3000 characters, the elision marker and its last 3000 characters, the
    two parts with every run of three backticks replaced by backticks that
    zero-width spaces separate; a content of at most 6000 characters, so one
    of exactly 6000, is rendered whole, with the same replacement, and one
    of exactly 6001 gets its first 3000 characters, the marker and its last
    3000. The replacement leaves a text without three backticks in a row as
    it is. *)
Theorem render_block_truncation f :
  let block body :=
    lit "---FILE: " ++ path f ++ lit "---" ++ [nl] ++ body ++ [nl] in
  let marker := [nl; nl] ++ lit "...<<SNIPPED MIDDLE>>..." ++ [nl; nl] in
  let escaped := replace (lit "```") [96; 8203; 96; 8203; 96]%N in
  ((6000 < len (content f))%Z ->
   render_block f
   = block (escaped (first_chars 3000 (content f))
            ++ marker
            ++ escaped (last_chars 3000 (content f)))
   /\ len (first_chars 3000 (content f)) = 3000%Z
   /\ len (last_chars 3000 (content f)) = 3000%Z)
  /\ ((len (content f) <= 6000)%Z ->
      render_block f = block (escaped (content f)))
  /\ (len (content f) = 6000%Z ->
      render_block f = block (escaped (content f)))
  /\ (len (content f) = 6001%Z ->
      render_block f
      = block (escaped (first_chars 3000 (content f))
               ++ marker
               ++ escaped (skipn 3001 (content f))))
  /\ (forall s, contains (lit "```") s = false -> escaped s = s).
Proof.
  cbv zeta.
  destruct (render_block_cases f) as (Hlong & Hshort & H6000 & H6001).
  repeat split.
  - now apply Hlong.
  - now apply Hlong.
  - now apply Hlong.
  - exact Hshort.
  - exact H6000.
  - exact H6001.
  - intros s Hs.
    change (replace (lit "```") [96; 8203; 96; 8203; 96]%N s)
      with (replace_from FENCE ESCAPED_FENCE s 0).
    apply replace_from_no_match; [exact Hs | discriminate].
Qed.

Lemma render_block_truncation_boundary :
  render_block Scenario.exactly_6000
  = lit "---FILE: a.txt---" ++ [nl]
    ++ repeat (ch "a") (Z.to_nat 6000) ++ [nl]
  /\ render_block Scenario.exactly_6001
     = lit "---FILE: b.txt---" ++ [nl]
       ++ (repeat (ch "b") (Z.to_nat 3000)
           ++ [nl; nl] ++ lit "...<<SNIPPED MIDDLE>>..." ++ [nl; nl]
           ++ repeat (ch "b") (Z.to_nat 3000))
       ++ [nl].
Proof.
  split.
  - pose proof (render_block_truncation Scenario.exactly_6000) as H.
    cbv zeta in H. destruct H as (_ & _ & H6000 & _ & Hplain).
    rewrite H6000 by (vm_compute; reflexivity).
    rewrite Hplain by (vm_compute; reflexivity).
    vm_compute. reflexivity.
  - pose proof (render_block_truncation Scenario.exactly_6001) as H.
    cbv zeta in H. destruct H as (_ & _ & _ & H6001 & Hplain).
    rewrite H6001 by (vm_compute; reflexivity).
    rewrite !Hplain by (vm_compute; reflexivity).
    vm_compute. reflexivity.
Defined.

(** C7 as stated fails for a long content that holds a fence: what is
    rendered of its first 3000 characters is not these characters, since
    line 116 escapes the fences of the long content as well. *)
Lemma fenced_prefix_not_kept :
  len (content Scenario.fenced_6001) = 6001%Z
  /\ contains (first_chars 3000 (content Scenario.fenced_6001))
       (render_block Scenario.fenced_6001) = false
  /\ startswith
       (lit "---FILE: c.md---" ++ [nl] ++ [96; 8203; 96; 8203; 96]%N
        ++ [ch "c"])
       (render_block Scenario.fenced_6001) = true.
Proof. repeat split; vm_compute; reflexivity. Qed.

Lemma skipn_nth_error {A} (l : list A) i x :
  nth_error l i = Some x -> skipn i l = x :: skipn (S i) l.
Proof.
  revert l. induction i as [|i IH]; intros [|y l]; simpl; try discriminate.
  - now intros [= ->].
  - intros H. now apply IH.
Qed.

(** The loop reads every entry from position [i] on, appends its block and
    leaves the list as it found it. *)
Lemma dump_files_spec n i limited_dump entries :
  length entries <= n + i ->
  dump_files n i limited_dump entries
  = (entries, limited_dump ++ map render_block (skipn i entries)).
Proof.
  revert i limited_dump. induction n as [|n IH]; intros i acc Hn; simpl.
  - rewrite skipn_all2 by lia. now rewrite app_nil_r.
  - destruct (nth_error entries i) as [f|] eqn:E.
    + rewrite IH by lia. rewrite (skipn_nth_error _ _ _ E). simpl.
      now rewrite <- app_assoc.
    + apply nth_error_None in E. rewrite skipn_all2 by lia.
      now rewrite app_nil_r.
Qed.

(** C8. For every criteria, role and list of file entries, the list is the
    same after [build_prompt] as before, entry by entry, path and content:
    the truncated and escaped contents only exist in the blocks of the
    prompt, which are computed from the entries as they were. *)
Theorem build_prompt_frame L criteria role file_entries :
  fst (build_prompt L criteria role file_entries) = file_entries
  /\ map path (fst (build_prompt L criteria role file_entries))
     = map path file_entries
  /\ map content (fst (build_prompt L criteria role file_entries))
     = map content file_entries
  /\ snd (build_prompt L criteria role file_entries)
     = (prompt <- str_format L PROMPT_TEMPLATE
                    [(lit "criteria_json", json_dumps L criteria);
                     (lit "role", role);
                     (lit "files_dump",
                      join [nl] (map render_block file_entries))] ;;
        Ok (first_chars 900000 prompt)).
Proof.
  unfold build_prompt.
  rewrite dump_files_spec by lia. simpl. auto.
Qed.

(** With the formatter of CPython the template cannot be filled: its first
    brace, the one that opens the JSON shape shown to the model, starts a
    replacement field named by the text up to the next colon, and no such
    keyword argument exists. *)
Lemma PROMPT_TEMPLATE_format_raises criteria_json role files_dump :
  Ref.format PROMPT_TEMPLATE
    [(lit "criteria_json", criteria_json); (lit "role", role);
     (lit "files_dump", files_dump)]
  = Err (KeyError ([nl] ++ lit "    ~role~")).
Proof. vm_compute. reflexivity. Qed.

Lemma build_prompt_ref_raises criteria role file_entries :
  snd (build_prompt Ref.lib criteria role file_entries)
  = Err (KeyError ([nl] ++ lit "    ~role~")).
Proof.
  unfold build_prompt. rewrite dump_files_spec by lia. cbn [snd].
  cbn [str_format Ref.lib]. now rewrite PROMPT_TEMPLATE_format_raises.
Qed.

(** ** Pipeline Orchestrator *)

Lemma str_mem_In x xs : str_mem x xs = true <-> In x xs.
Proof.
  unfold str_mem. rewrite existsb_exists. split.
  - intros (y & Hy & E). destruct (str_eqb_spec x y); [now subst | discriminate].
  - intros H. exists x. split; [exact H | apply str_eqb_refl].
Qed.

(** C6. For every role outside of intern, sde and architect the entry point
    fails with the ValueError of line 173 and has performed nothing before:
    no read of the criteria file, no project file I/O, no model call. *)
Theorem invalid_role_fails_first L w project_root criteria_path role :
  ~ In role ROLES ->
  validate_project L w project_root criteria_path role
  = ([], Err (ValueError
                (lit "role must be one of: intern, sde, architect"))).
Proof.
  intros H. unfold validate_project.
  destruct (str_mem role ROLES) eqn:E; [|reflexivity].
  apply str_mem_In in E. contradiction.
Qed.

Lemma invalid_role_fails_first_manager :
  ~ In (lit "manager") ROLES
  /\ validate_project Ref.lib Scenario.world_of_run Scenario.root
       (lit "criteria.json") (lit "manager")
     = ([], Err (ValueError
                   (lit "role must be one of: intern, sde, architect"))).
Proof.
  assert (H : ~ In (lit "manager") ROLES)
    by (intros [H|[H|[H|[]]]]; discriminate H).
  split; [exact H|].
  apply (invalid_role_fails_first Ref.lib Scenario.world_of_run Scenario.root
           (lit "criteria.json") (lit "manager") H).
Defined.

(** With a valid role the criteria are read and the project is walked;
    with the formatter of CPython the run then ends in [build_prompt], before
    any model call. *)
Example valid_role_run :
  validate_project Ref.lib Scenario.world_of_run Scenario.root
    (lit "criteria.json") (lit "sde")
  = ([CriteriaRead (lit "criteria.json"); ProjectIO Scenario.root],
     Err (KeyError ([nl] ++ lit "    ~role~"))).
Proof. vm_compute. reflexivity. Qed.

(** What [validate_project] returns is what the part after the model call
    returns. *)
Lemma validate_project_returns L w project_root criteria_path role t out :
  validate_project L w project_root criteria_path role = (t, Ok out) ->
  exists raw files,
    parse_and_verify L (project_files w) project_root raw files = Ok out.
Proof.
  unfold validate_project.
  destruct (negb _); [discriminate|].
  unfold io_bind, perform, silent.
  destruct (read_criteria L w criteria_path) as [criteria|]; [|discriminate].
  destruct (build_prompt L criteria role _) as [files [prompt|]];
    [|discriminate].
  destruct (call_gemini w prompt) as [raw|]; [|discriminate].
  intros H. exists raw, files. unfold parse_and_verify.
  destruct (parse_response L raw) as [result|]; [|discriminate].
  cbn [bind].
  destruct (verify_evidence _ _ result) as [report|]; [|discriminate].
  injection H as _ <-. reflexivity.
Qed.

(** A run that returns has received a reply with a brace, given a decoder
    that yields a dict only from a text containing [{]. *)
Lemma validate_project_returns_braced L w project_root criteria_path role t
    out :
  (forall s d, json_loads L s = inr (JObj d) -> index (ch "{") s <> None) ->
  validate_project L w project_root criteria_path role = (t, Ok out) ->
  index (ch "{") (raw out) <> None.
Proof.
  intros Hdict H.
  destruct (validate_project_returns _ _ _ _ _ _ _ H) as (raw0 & files & Hrun).
  assert (E : raw out = raw0).
  { unfold parse_and_verify in Hrun.
    destruct (parse_response L raw0); [cbn [bind] in Hrun|discriminate].
    destruct (verify_evidence _ _ _); [cbn [bind] in Hrun|discriminate].
    now injection Hrun as <-. }
  rewrite E. intros Hnone.
  unfold parse_and_verify, parse_response, try_except in Hrun.
  rewrite (bracket_slice_braceless _ (index_strip_none _ _ Hnone)) in Hrun.
  destruct (json_loads L (strip raw0)) as [e|v] eqn:Ev;
    [discriminate|]. cbn [bind] in Hrun.
  rewrite verify_evidence_not_dict in Hrun; [discriminate|].
  intros d ->. apply (Hdict _ _ Ev). now apply index_strip_none.
Qed.

Lemma mark_copy_flag d verified ev' :
  mark_copy d verified = Ok ev' ->
  exists d', ev' = JObj d'
             /\ dict_get (lit "verified") d' = Some (JBool verified).
Proof.
  unfold mark_copy. cbv zeta. destruct verified.
  - intros H. injection H as <-. eexists. split; [reflexivity|].
    apply dict_get_set_same.
  - destruct (add_str _ _); [simpl|discriminate].
    intros H. injection H as <-. eexists. split; [reflexivity|].
    rewrite dict_get_set_other by discriminate. apply dict_get_set_same.
Qed.

Lemma verify_item_sets fs root ev ev' :
  verify_item fs root ev = Ok ev' -> set_by_verifier fs root ev ev'.
Proof.
  unfold verify_item, set_by_verifier.
  destruct ev as [| | | | | |d]; try discriminate. cbv zeta.
  destruct (full_path root _) as [fp|] eqn:Efp; [simpl|discriminate].
  intros H. apply mark_copy_flag in H as (d' & -> & Hflag).
  exists d, d', fp. auto.
Qed.

Lemma mapM_nonempty_err {A B} (f : A -> result B) x l l' :
  (forall y, f x <> Ok y) -> mapM f (x :: l) <> Ok l'.
Proof.
  intros Hx. simpl. destruct (f x) as [y|] eqn:E; [|discriminate].
  now destruct (Hx y).
Qed.

Lemma verify_category_sets fs root e e' :
  verify_category fs root e = Ok e' ->
  fst e = fst e'
  /\ Forall2 (set_by_verifier fs root)
       (evidence_of (snd e)) (evidence_of (snd e')).
Proof.
  destruct e as [cat details]. unfold verify_category.
  destruct details as [| | | | | |d]; try discriminate.
  unfold dict_get_default. cbn [snd evidence_of].
  destruct (dict_get (lit "evidence") d) as [[| | | |s|evs|d0]|];
    try discriminate; cbn [iterate bind].
  - (* a str: only the empty one gets through *)
    destruct s as [|c s]; cbn [map].
    + intros H. injection H as <-. cbn [fst snd].
      rewrite evidence_of_set. split; [reflexivity | constructor].
    + destruct (mapM _ _) as [new_evs|] eqn:E; [|discriminate].
      now apply mapM_nonempty_err in E.
  - destruct (mapM _ evs) as [new_evs|] eqn:E; [simpl|discriminate].
    intros H. injection H as <-. cbn [fst snd].
    rewrite evidence_of_set. split; [reflexivity|].
    apply mapM_ok in E.
    induction E as [|x y l l' Hxy _ IH]; constructor; [|exact IH].
    now apply verify_item_sets.
  - (* a dict: only the empty one gets through *)
    destruct d0 as [|kv d0]; cbn [map].
    + intros H. injection H as <-. cbn [fst snd].
      rewrite evidence_of_set. split; [reflexivity | constructor].
    + destruct (mapM _ _) as [new_evs|] eqn:E; [|discriminate].
      now apply mapM_nonempty_err in E.
  - intros H. injection H as <-. cbn [fst snd].
    rewrite evidence_of_set. split; [reflexivity | constructor].
Qed.

Lemma verify_evidence_sets fs root report report' :
  verify_evidence fs root report = Ok report' ->
  items_related (set_by_verifier fs root) report report'.
Proof.
  unfold verify_evidence, items_related, categories, dict_get_default.
  destruct report as [| | | | | |r]; try discriminate.
  destruct (dict_get (lit "criteria_scores") r) as [[| | | | | |cs]|];
    try discriminate.
  - destruct (mapM _ cs) as [cs'|] eqn:E; [simpl|discriminate].
    intros H. injection H as <-. rewrite dict_get_set_same.
    apply mapM_ok in E.
    induction E as [|e e' l l' Hee _ IH]; constructor; [|exact IH].
    now apply verify_category_sets.
  - simpl. intros H. injection H as <-. rewrite dict_get_set_same.
    constructor.
Qed.

(** C9, as amended. For every report returned by the part of the pipeline
    that follows the model call, which is what [validate_project] returns
    whenever it returns, every category has an evidence list and every item
    of it carries a [verified] field holding a boolean; and that boolean is
    the verdict the Verifier computed from the parsed item, whether or not
    the parsed item held a [verified] of its own. *)
Theorem returned_report_verified L fs project_root raw files out :
  parse_and_verify L fs project_root raw files = Ok out ->
  all_verified (result_ out)
  /\ exists parsed,
       parse_response L raw = Ok parsed
       /\ items_related (set_by_verifier fs project_root)
            parsed (result_ out).
Proof.
  unfold parse_and_verify.
  destruct (parse_response L raw) as [result|]; [simpl|discriminate].
  destruct (verify_evidence fs project_root result) as [report'|] eqn:E;
    [simpl|discriminate].
  intros Hout. injection Hout as <-. simpl. split.
  - unfold all_verified. eapply verify_evidence_ok; eassumption.
  - exists result. split; [reflexivity|]. now apply verify_evidence_sets.
Qed.

Lemma returned_report_verified_reply :
  parse_and_verify Ref.lib Scenario.fs Scenario.root Scenario.reply []
  = Ok Scenario.reply_outcome
  /\ all_verified (result_ Scenario.reply_outcome)
  /\ exists parsed,
       parse_response Ref.lib Scenario.reply = Ok parsed
       /\ items_related (set_by_verifier Scenario.fs Scenario.root)
            parsed (result_ Scenario.reply_outcome).
Proof.
  split; [vm_compute; reflexivity|].
  apply (returned_report_verified Ref.lib Scenario.fs Scenario.root
           Scenario.reply []).
  vm_compute; reflexivity.
Defined.

(** C9 as stated fails on its parenthesis: the field is not always absent
    before the Verifier runs. A reply whose item comes with a [verified] of
    the model's own is parsed with that field, here the string [yes]; the
    pipeline returns on it, the verdict in its place. *)
Lemma verified_supplied_by_model :
  exists parsed out,
    parse_response Ref.lib Scenario.presumptuous_reply = Ok parsed
    /\ ~ verified_absent parsed
    /\ map evidence_of (map snd (categories parsed))
       = [[JObj [(lit "path", JStr (lit "a.py"));
                 (lit "snippet", JStr (lit "foo(baz)"));
                 (lit "note", JStr (lit "sure"));
                 (lit "verified", JStr (lit "yes"))]]]
    /\ parse_and_verify Ref.lib Scenario.fs Scenario.root
         Scenario.presumptuous_reply [] = Ok out
    /\ map evidence_of (map snd (categories (result_ out)))
       = [[JObj [(lit "path", JStr (lit "a.py"));
                 (lit "snippet", JStr (lit "foo(baz)"));
                 (lit "note", JStr (lit "sure [EVIDENCE NOT FOUND]"));
                 (lit "verified", JBool false)]]].
Proof.
  do 2 eexists. split; [vm_compute; reflexivity|]. split.
  - intros H.
    specialize (H (lit "style")
                  (JObj [(lit "evidence",
                          JArr [JObj [(lit "path", JStr (lit "a.py"));
                                      (lit "snippet", JStr (lit "foo(baz)"));
                                      (lit "note", JStr (lit "sure"));
                                      (lit "verified", JStr (lit "yes"))]])])
                  [(lit "path", JStr (lit "a.py"));
                   (lit "snippet", JStr (lit "foo(baz)"));
                   (lit "note", JStr (lit "sure"));
                   (lit "verified", JStr (lit "yes"))]).
    assert (Hnone : dict_get (lit "verified")
                      [(lit "path", JStr (lit "a.py"));
                       (lit "snippet", JStr (lit "foo(baz)"));
                       (lit "note", JStr (lit "sure"));
                       (lit "verified", JStr (lit "yes"))] = None).
    { apply H; vm_compute; left; reflexivity. }
    vm_compute in Hnone. discriminate Hnone.
  - repeat split; vm_compute; reflexivity.
Qed.

(* ===================================================================== *)
(** * Further properties *)
(* ===================================================================== *)

(** ** File Selector: what is selected *)

Section SelectionFacts.

Variable L : pylib.
Variable include_exts : option (list str).
Variables max_files max_size_bytes : Z.


(** The loops only append. *)
Lemma scan_files_extends rel files collected :
  exists more, scan_files L include_exts max_files max_size_bytes rel files collected = collected ++ more.
Proof.
  revert collected. induction files as [|[fname f] files IH];
    intros collected; simpl.
  - exists []. now rewrite app_nil_r.
  - destruct (full _ collected); [exists []; now rewrite app_nil_r|].
    destruct (negb _); [apply IH|].
    destruct (getsize f) as [size|]; [|apply IH].
    destruct (max_size_bytes <? size)%Z; [apply IH|].
    destruct (file_text f) as [text|]; [|apply IH].
    destruct (IH (collected ++ [{| path := rel_join rel fname;
                                   content := text |}])) as (more & ->).
    rewrite <- app_assoc. eexists. reflexivity.
Qed.

Lemma scan_dirs_extends walked collected :
  exists more, scan_dirs L include_exts max_files max_size_bytes walked collected = collected ++ more.
Proof.
  revert collected. induction walked as [|[rel files] walked IH];
    intros collected; simpl.
  - exists []. now rewrite app_nil_r.
  - destruct (scan_files_extends rel files collected) as (more & E).
    destruct (full _ _); [now exists more|].
    rewrite E. destruct (IH (collected ++ more)) as (more' & ->).
    rewrite <- app_assoc. eexists. reflexivity.
Qed.

Lemma full_extends collected more :
  full max_files collected = true -> full max_files (collected ++ more) = true.
Proof.
  unfold full. rewrite !Z.leb_le, length_app. lia.
Qed.

(** While the ceiling is not reached, every accepted file is appended. *)
Lemma scan_files_complete rel files collected fname f text :
  full max_files (scan_files L include_exts max_files max_size_bytes rel files collected) = false ->
  In (fname, f) files ->
  eligible L include_exts max_size_bytes fname f text ->
  In {| path := rel_join rel fname; content := text |}
     (scan_files L include_exts max_files max_size_bytes rel files collected).
Proof.
  intros Hfull Hin (Hext & (size & Hsize & Hle) & Htext).
  revert collected Hfull.
  induction files as [|[fname0 f0] files IH]; intros collected Hfull;
    [contradiction|].
  simpl in *.
  destruct (full max_files collected) eqn:Ec; [congruence|].
  destruct Hin as [E|Hin].
  - injection E as -> ->. rewrite Hext, Hsize. simpl.
    apply Z.ltb_ge in Hle. rewrite Hle, Htext.
    destruct (scan_files_extends rel files
                (collected ++ [{| path := rel_join rel fname;
                                  content := text |}])) as (more & E).
    rewrite E.
    apply in_or_app. left. apply in_or_app. right. now left.
  - destruct (negb _); [now apply IH|].
    destruct (getsize f0) as [size0|]; [|now apply IH].
    destruct (max_size_bytes <? size0)%Z; [now apply IH|].
    destruct (file_text f0) as [text0|]; now apply IH.
Qed.

Lemma scan_dirs_complete walked collected rel files fname f text :
  full max_files (scan_dirs L include_exts max_files max_size_bytes walked collected) = false ->
  In (rel, files) walked -> In (fname, f) files ->
  eligible L include_exts max_size_bytes fname f text ->
  In {| path := rel_join rel fname; content := text |}
     (scan_dirs L include_exts max_files max_size_bytes walked collected).
Proof.
  intros Hfull Hw Hf Hel. revert collected Hfull.
  induction walked as [|[rel0 files0] walked IH]; intros collected Hfull;
    [contradiction|].
  simpl in *.
  destruct (full max_files (scan_files L include_exts max_files max_size_bytes rel0 files0 collected)) eqn:Ec;
    [congruence|].
  destruct Hw as [E|Hw].
  - injection E as -> ->.
    destruct (scan_dirs_extends walked (scan_files L include_exts max_files max_size_bytes rel files collected))
      as (more & E).
    rewrite E.
    apply in_or_app. left. eapply scan_files_complete; eassumption.
  - now apply IH.
Qed.

(** Every collected entry comes from an accepted file. *)
Lemma scan_files_selected_from walked rel files collected :
  (forall fname f, In (fname, f) files ->
                   exists files', In (rel, files') walked
                                  /\ In (fname, f) files') ->
  Forall (selected_from L include_exts max_size_bytes walked) collected ->
  Forall (selected_from L include_exts max_size_bytes walked)
         (scan_files L include_exts max_files max_size_bytes rel files collected).
Proof.
  revert collected. induction files as [|[fname f] files IH];
    intros collected Hin Hall; simpl; [exact Hall|].
  assert (Hin' : forall fname f, In (fname, f) files ->
                   exists files', In (rel, files') walked
                                  /\ In (fname, f) files')
    by (intros; apply Hin; now right).
  destruct (full _ collected); [exact Hall|].
  destruct (ext_allowed L include_exts fname) eqn:Eext; simpl;
    [|now apply IH].
  destruct (getsize f) as [size|] eqn:Esize; [|now apply IH].
  destruct (max_size_bytes <? size)%Z eqn:Ebig; [now apply IH|].
  destruct (file_text f) as [text|] eqn:Etext; [|now apply IH].
  apply IH; [exact Hin'|].
  apply Forall_app. split; [exact Hall|]. constructor; [|constructor].
  destruct (Hin fname f (or_introl eq_refl)) as (files' & Hw & Hf).
  exists rel, files', fname, f. simpl. repeat split; try assumption.
  exists size. split; [exact Esize|]. now apply Z.ltb_ge.
Qed.

Lemma scan_dirs_selected_from all walked collected :
  incl walked all ->
  Forall (selected_from L include_exts max_size_bytes all) collected ->
  Forall (selected_from L include_exts max_size_bytes all)
         (scan_dirs L include_exts max_files max_size_bytes walked collected).
Proof.
  revert collected. induction walked as [|[rel files] walked IH];
    intros collected Hincl Hall; simpl; [exact Hall|].
  assert (H : Forall (selected_from L include_exts max_size_bytes all)
                     (scan_files L include_exts max_files max_size_bytes rel files collected)).
  { apply scan_files_selected_from; [|exact Hall].
    intros fname f Hf. exists files. split; [|exact Hf].
    apply Hincl. now left. }
  destruct (full _ _); [exact H|].
  apply IH; [|exact H]. intros x Hx. apply Hincl. now right.
Qed.

End SelectionFacts.

(** X1. When the selection has fewer entries than the ceiling, no accepted
    file of a walked directory was left out. *)
Theorem gather_files_complete L include_exts max_files max_size_bytes
    project_tree rel files fname f text :
  let out :=
    gather_files L include_exts max_files max_size_bytes project_tree in
  (Z.of_nat (length out) < max_files)%Z ->
  In (rel, files) (walk [] project_tree) -> In (fname, f) files ->
  eligible L include_exts max_size_bytes fname f text ->
  In {| path := rel_join rel fname; content := text |} out.
Proof.
  cbv zeta. unfold gather_files. intros Hlen Hw Hf Hel.
  set (collected := scan_dirs L include_exts max_files max_size_bytes
                      (walk [] project_tree) []) in *.
  pose proof (sort_entries_perm L collected) as Hperm.
  apply (Permutation_in _ (Permutation_sym Hperm)).
  apply (scan_dirs_complete L include_exts max_files max_size_bytes
           (walk [] project_tree) [] rel files fname f text);
    try assumption.
  unfold full. apply Z.leb_gt.
  rewrite (Permutation_length Hperm) in Hlen. exact Hlen.
Qed.

Lemma gather_files_complete_tree :
  In {| path := lit "docs/README.md"; content := lit "# Docs" |}
     (gather_files Ref.lib (Some INCLUDE_EXTS) 80 200000 Scenario.tree).
Proof.
  apply (gather_files_complete Ref.lib (Some INCLUDE_EXTS) 80 200000
           Scenario.tree (lit "docs")
           [(lit "README.md",
             {| getsize := Some 6%Z; file_text := Some (lit "# Docs") |})]
           (lit "README.md")
           {| getsize := Some 6%Z; file_text := Some (lit "# Docs") |}).
  - vm_compute. reflexivity.
  - vm_compute. auto.
  - simpl. auto.
  - unfold eligible. split; [vm_compute; reflexivity|].
    split; [|reflexivity]. exists 6%Z. split; [reflexivity | lia].
Defined.

(** X2. Every selected entry is the relative path and the text of a file
    of a walked directory whose extension is allowed, whose size is within
    the ceiling and which could be read. *)
Theorem gather_files_selected_from L include_exts max_files max_size_bytes
    project_tree e :
  In e (gather_files L include_exts max_files max_size_bytes project_tree) ->
  selected_from L include_exts max_size_bytes (walk [] project_tree) e.
Proof.
  unfold gather_files. intros He.
  apply (Permutation_in _ (sort_entries_perm L _)) in He.
  assert (H : Forall (selected_from L include_exts max_size_bytes
                        (walk [] project_tree))
                (scan_dirs L include_exts max_files max_size_bytes
                   (walk [] project_tree) [])).
  { apply scan_dirs_selected_from; [apply incl_refl | constructor]. }
  rewrite Forall_forall in H. now apply H.
Qed.

Lemma gather_files_selected_from_tree :
  selected_from Ref.lib (Some INCLUDE_EXTS) 200000 (walk [] Scenario.tree)
    {| path := lit "app.py"; content := lit "y = foo(bar)" |}.
Proof.
  apply (gather_files_selected_from Ref.lib (Some INCLUDE_EXTS) 80 200000
           Scenario.tree).
  vm_compute. auto.
Defined.

(** *** Pruned directories *)

Lemma files_in_prune entries :
  files_in (map (fun e => (fst e,
                           match snd e with
                           | Dir _ =>
                               if str_mem (fst e) SKIPPED_DIRS then Dir []
                               else prune (snd e)
                           | File f => File f
                           end)) entries)
  = files_in entries.
Proof.
  unfold files_in. induction entries as [|[name n] entries IH];
    [reflexivity|].
  cbn [map flat_map]. rewrite IH. f_equal.
  destruct n as [f|sub]; [reflexivity|]. cbn [fst snd].
  now destruct (str_mem name SKIPPED_DIRS).
Qed.

Lemma walk_prune n : forall rel, walk rel (prune n) = walk rel n.
Proof.
  induction n as [f|entries IH] using node_induction; intros rel;
    [reflexivity|].
  cbn [prune walk]. rewrite files_in_prune. f_equal.
  induction IH as [|[name n] entries Hn _ IHentries]; [reflexivity|].
  cbn [map flat_map]. rewrite IHentries. f_equal.
  cbn [fst snd] in *.
  destruct n as [f|sub]; [reflexivity|].
  destruct (str_mem name SKIPPED_DIRS); [reflexivity|].
  specialize (Hn (rel_join rel name)).
  destruct (prune (Dir sub)) as [f|pruned] eqn:Ep; [discriminate Ep|].
  exact Hn.
Qed.

(** X3. What lies below a directory named [.git], [node_modules], [venv]
    or [__pycache__], at any depth, has no influence on the selection. *)
Theorem gather_files_prune L include_exts max_files max_size_bytes
    project_tree :
  gather_files L include_exts max_files max_size_bytes (prune project_tree)
  = gather_files L include_exts max_files max_size_bytes project_tree.
Proof. unfold gather_files. now rewrite walk_prune. Qed.

(** X4. A ceiling of zero files, or a negative one, selects nothing. *)
Theorem gather_files_no_room L include_exts max_files max_size_bytes
    project_tree :
  (max_files <= 0)%Z ->
  gather_files L include_exts max_files max_size_bytes project_tree = [].
Proof.
  intros H. unfold gather_files.
  assert (Hfull : full max_files [] = true)
    by (unfold full; apply Z.leb_le; simpl; lia).
  destruct (walk [] project_tree) as [|[rel files] walked]; [reflexivity|].
  assert (E : scan_files L include_exts max_files max_size_bytes rel files []
              = []).
  { destruct files as [|[fname f] files]; cbn [scan_files];
      [reflexivity | now rewrite Hfull]. }
  cbn [scan_dirs]. rewrite E, Hfull. reflexivity.
Qed.

Lemma gather_files_no_room_tree :
  gather_files Ref.lib None 0 200000 Scenario.tree = [].
Proof.
  apply (gather_files_no_room Ref.lib None 0 200000 Scenario.tree). lia.
Defined.

(** ** Prompt Builder: size and content of a block *)

Lemma truncate_middle_bound content : (len (truncate_middle content) <= 6028)%Z.
Proof.
  unfold truncate_middle.
  destruct (6000 <? len content)%Z eqn:E.
  - apply Z.ltb_lt in E. unfold len. rewrite !length_app.
    pose proof (first_chars_length 3000 content) as H1.
    pose proof (last_chars_length 3000 content) as H2.
    unfold len in *.
    change (length SNIPPED_MIDDLE) with 28. lia.
  - apply Z.ltb_ge in E. lia.
Qed.

(** A fence of three characters becomes five: an escaped text is at most
    five thirds of the text. *)
Lemma replace_from_fence_length s :
  forall k, k <= length s ->
    3 * length (replace_from FENCE ESCAPED_FENCE s k) + 5 * k
    <= 5 * length s.
Proof.
  rewrite FENCE_backticks.
  induction s as [|c s IH]; intros k Hk; simpl in Hk.
  - assert (k = 0) by lia. subst. simpl. lia.
  - cbn [replace_from]. destruct k as [|k].
    + destruct (startswith _ (c :: s)) eqn:E.
      * apply startswith_length in E. simpl in E.
        rewrite length_app.
        change (length ESCAPED_FENCE) with 5.
        change (length [96%N; 96%N; 96%N] - 1) with 2.
        specialize (IH 2 ltac:(lia)). simpl length. lia.
      * specialize (IH 0 ltac:(lia)). simpl length. lia.
    + specialize (IH k ltac:(lia)). simpl length. lia.
Qed.

Lemma escape_fences_length s :
  (3 * len (escape_fences s) <= 5 * len s)%Z.
Proof.
  rewrite escape_fences_unfold. unfold len.
  pose proof (replace_from_fence_length s 0 ltac:(lia)). lia.
Qed.

(** X5. Whatever the size of the file, its block in the prompt has at most
    10060 characters more than its path: the content is cut to 6028
    characters before its fences are escaped. *)
Theorem render_block_bounded f :
  (len (truncate_middle (content f)) <= 6028)%Z
  /\ (len (render_block f) <= len (path f) + 10060)%Z.
Proof.
  split; [apply truncate_middle_bound|].
  unfold render_block, file_block. cbv zeta.
  pose proof (truncate_middle_bound (content f)) as H1.
  pose proof (escape_fences_length (truncate_middle (content f))) as H2.
  unfold len in *. rewrite !length_app.
  change (length (lit "---FILE: ")) with 9.
  change (length (lit "---")) with 3.
  change (length [nl]) with 1. lia.
Qed.

(** Escaping only inserts zero-width spaces. *)
Lemma replace_from_fence_without_zero_width s :
  ~ In ZERO_WIDTH_SPACE s ->
  forall k,
    without_zero_width (replace_from FENCE ESCAPED_FENCE s k) = skipn k s.
Proof.
  rewrite FENCE_backticks. unfold without_zero_width.
  induction s as [|c s IH]; intros Hz k.
  - now destruct k.
  - assert (Hs : ~ In ZERO_WIDTH_SPACE s) by (intros H; apply Hz; now right).
    assert (Hc : N.eqb c ZERO_WIDTH_SPACE = false).
    { apply N.eqb_neq. intros ->. apply Hz. now left. }
    cbn [replace_from]. destruct k as [|k]; [|apply (IH Hs)].
    destruct (startswith _ (c :: s)) eqn:E.
    + rewrite filter_app, (IH Hs).
      change (length [96%N; 96%N; 96%N] - 1) with 2.
      destruct s as [|c1 [|c2 s]]; cbn [startswith] in E;
        try (rewrite ?andb_false_r in E; discriminate E).
      apply andb_prop in E as [E0 E]. apply andb_prop in E as [E1 E].
      apply andb_prop in E as [E2 _].
      apply N.eqb_eq in E0, E1, E2. subst. reflexivity.
    + cbn [filter]. rewrite Hc. cbn [negb]. now rewrite (IH Hs).
Qed.

(** X6. Escaping the fences only inserts zero-width spaces (U+200B):
    removing them from the escaped content of a file that had none gives
    the content back. *)
Theorem escape_fences_reversible content :
  ~ In ZERO_WIDTH_SPACE content ->
  without_zero_width (escape_fences content) = content.
Proof.
  intros H. rewrite escape_fences_unfold.
  now rewrite (replace_from_fence_without_zero_width content H 0).
Qed.

Lemma escape_fences_reversible_fenced :
  without_zero_width (escape_fences (lit "a```b````c")) = lit "a```b````c".
Proof.
  apply (escape_fences_reversible (lit "a```b````c")).
  vm_compute. intuition discriminate.
Defined.

(** X7. A file of at most 6000 characters that contains no run of three
    backticks is put in the prompt verbatim, between its header line and a
    newline. *)
Theorem render_block_verbatim f :
  (len (content f) <= 6000)%Z ->
  contains FENCE (content f) = false ->
  render_block f
  = lit "---FILE: " ++ path f ++ lit "---" ++ [nl] ++ content f ++ [nl].
Proof.
  intros Hlen Hfence.
  rewrite (proj1 (proj2 (render_block_cases f)) Hlen).
  unfold file_block. rewrite escape_fences_unfold.
  rewrite replace_from_no_match; [reflexivity | exact Hfence | discriminate].
Qed.

Lemma render_block_verbatim_app :
  render_block {| path := lit "app.py"; content := lit "y = foo(bar)" |}
  = lit "---FILE: app.py---" ++ [nl] ++ lit "y = foo(bar)" ++ [nl].
Proof.
  apply (render_block_verbatim
           {| path := lit "app.py"; content := lit "y = foo(bar)" |});
    vm_compute; [discriminate | reflexivity].
Defined.

(** ** Response Parser: white space and failure *)

Lemma lstrip_spaces ws s :
  Forall (fun c => is_space c = true) ws -> lstrip (ws ++ s) = lstrip s.
Proof. induction 1 as [|c ws Hc _ IH]; simpl; [reflexivity | now rewrite Hc]. Qed.

Lemma rstrip_spaces ws s :
  Forall (fun c => is_space c = true) ws -> rstrip (s ++ ws) = rstrip s.
Proof.
  intros Hws.
  assert (E : rstrip ws = []).
  { induction Hws as [|c ws Hc _ IH]; simpl; [reflexivity|].
    now rewrite IH, Hc. }
  induction s as [|c s IH]; simpl; [exact E | now rewrite IH].
Qed.

Lemma strip_spaces before s after :
  Forall (fun c => is_space c = true) before ->
  Forall (fun c => is_space c = true) after ->
  strip (before ++ s ++ after) = strip s.
Proof.
  intros Hb Ha. unfold strip. rewrite lstrip_spaces by exact Hb.
  induction s as [|c s IH]; simpl.
  - rewrite <- (app_nil_r after) at 1. rewrite lstrip_spaces by exact Ha.
    reflexivity.
  - destruct (is_space c); [exact IH|].
    change (c :: s ++ after) with ((c :: s) ++ after).
    now apply rstrip_spaces.
Qed.

(** X8. White space around the raw output does not change what the parser
    returns or raises. *)
Theorem parse_response_ignores_spaces L before raw after :
  Forall (fun c => is_space c = true) before ->
  Forall (fun c => is_space c = true) after ->
  parse_response L (before ++ raw ++ after) = parse_response L raw.
Proof.
  intros Hb Ha. unfold parse_response. cbv zeta.
  now rewrite (strip_spaces before raw after Hb Ha).
Qed.

Lemma parse_response_ignores_spaces_reply :
  parse_response Ref.lib ([nl; 32%N] ++ Scenario.reply ++ [9%N; nl])
  = parse_response Ref.lib Scenario.reply.
Proof.
  apply (parse_response_ignores_spaces Ref.lib [nl; 32%N] Scenario.reply
           [9%N; nl]);
    repeat constructor.
Defined.

Lemma parse_response_raises L raw e :
  parse_response L raw = Err e ->
  exists msg,
    json_loads L (strip raw) = inl msg
    /\ e = parse_failure (strip raw) msg
    /\ (forall json_text,
          bracket_slice (strip raw) = Some json_text ->
          exists m, json_loads L json_text = inl m).
Proof.
  unfold parse_response, try_except, loads. cbv zeta. intros H.
  destruct (bracket_slice (strip raw)) as [json_text|].
  - destruct (json_loads L json_text) as [m|v] eqn:Eslice; [|discriminate].
    destruct (json_loads L (strip raw)) as [msg|v]; [|discriminate].
    injection H as <-. exists msg. repeat split.
    intros jt [= <-]. now exists m.
  - destruct (json_loads L (strip raw)) as [msg|v]; [|discriminate].
    injection H as <-. exists msg. repeat split. discriminate.
Qed.

(** X9. The parser raises one exception only, the diagnostic of line 194,
    and only when the whole trimmed text does not parse and no bracket slice
    does; its message quotes at most 2000 characters of the output, so it is
    at most 2077 characters longer than the decoder's message. *)
Theorem parse_response_failure L raw e :
  parse_response L raw = Err e ->
  exists msg text,
    json_loads L (strip raw) = inl msg
    /\ e = parse_failure (strip raw) msg
    /\ e = RuntimeError text
    /\ (len text <= len msg + 2077)%Z
    /\ (forall json_text,
          bracket_slice (strip raw) = Some json_text ->
          exists m, json_loads L json_text = inl m).
Proof.
  intros H.
  destruct (parse_response_raises L raw e H) as (msg & Hmsg & -> & Hslice).
  exists msg. eexists. repeat split; try eassumption.
  unfold len, first_chars. rewrite !length_app, length_firstn.
  change (length (lit "Failed to parse JSON from model output. Raw output first 2000 chars:")) with 68.
  change (length (lit "Error:")) with 6.
  change (length [nl]) with 1. change (length [nl; nl]) with 2.
  lia.
Qed.

Lemma parse_response_failure_refusal :
  exists msg text,
    json_loads Ref.lib (strip Scenario.refusal) = inl msg
    /\ parse_failure Scenario.refusal Scenario.expecting_value
       = parse_failure (strip Scenario.refusal) msg
    /\ parse_failure Scenario.refusal Scenario.expecting_value
       = RuntimeError text
    /\ (len text <= len msg + 2077)%Z
    /\ (forall json_text,
          bracket_slice (strip Scenario.refusal) = Some json_text ->
          exists m, json_loads Ref.lib json_text = inl m).
Proof.
  apply (parse_response_failure Ref.lib Scenario.refusal
           (parse_failure Scenario.refusal Scenario.expecting_value)).
  vm_compute. reflexivity.
Defined.

(** ** Evidence Verifier: every report it returns *)

Lemma verify_category_items fs root (R : json -> json -> Prop) e e' :
  (forall ev ev', verify_item fs root ev = Ok ev' -> R ev ev') ->
  verify_category fs root e = Ok e' ->
  fst e = fst e'
  /\ Forall2 R (evidence_of (snd e)) (evidence_of (snd e')).
Proof.
  intros HR. destruct e as [cat details]. unfold verify_category.
  destruct details as [| | | | | |d]; try discriminate.
  unfold dict_get_default. cbn [snd evidence_of].
  destruct (dict_get (lit "evidence") d) as [[| | | |s|evs|d0]|];
    try discriminate; cbn [iterate bind].
  - destruct s as [|c s]; cbn [map].
    + intros H. injection H as <-. cbn [fst snd].
      rewrite evidence_of_set. split; [reflexivity | constructor].
    + destruct (mapM _ _) as [new_evs|] eqn:E; [|discriminate].
      now apply mapM_nonempty_err in E.
  - destruct (mapM _ evs) as [new_evs|] eqn:E; [simpl|discriminate].
    intros H. injection H as <-. cbn [fst snd].
    rewrite evidence_of_set. split; [reflexivity|].
    apply mapM_ok in E.
    induction E as [|x y l l' Hxy _ IH]; constructor; [|exact IH].
    now apply HR.
  - destruct d0 as [|kv d0]; cbn [map].
    + intros H. injection H as <-. cbn [fst snd].
      rewrite evidence_of_set. split; [reflexivity | constructor].
    + destruct (mapM _ _) as [new_evs|] eqn:E; [|discriminate].
      now apply mapM_nonempty_err in E.
  - intros H. injection H as <-. cbn [fst snd].
    rewrite evidence_of_set. split; [reflexivity | constructor].
Qed.

Lemma verify_evidence_items fs root (R : json -> json -> Prop) report report' :
  (forall ev ev', verify_item fs root ev = Ok ev' -> R ev ev') ->
  verify_evidence fs root report = Ok report' ->
  items_related R report report'.
Proof.
  intros HR.
  unfold verify_evidence, items_related, categories, dict_get_default.
  destruct report as [| | | | | |r]; try discriminate.
  destruct (dict_get (lit "criteria_scores") r) as [[| | | | | |cs]|];
    try discriminate.
  - destruct (mapM _ cs) as [cs'|] eqn:E; [simpl|discriminate].
    intros H. injection H as <-. rewrite dict_get_set_same.
    apply mapM_ok in E.
    induction E as [|e e' l l' Hee _ IH]; constructor; [|exact IH].
    now apply (verify_category_items fs root R).
  - simpl. intros H. injection H as <-. rewrite dict_get_set_same.
    constructor.
Qed.

(** Whatever the item is made of, the code's test is the specification's. *)
Lemma check_snippet_exact fs root d fullpath :
  full_path root (dict_get_default (lit "path") JNull d) = Ok fullpath ->
  check_snippet fs fullpath (dict_get_default (lit "snippet") (JStr []) d)
  = evidence_found fs root d.
Proof.
  unfold full_path, check_snippet, evidence_found, dict_get_default.
  destruct (dict_get (lit "path") d) as [[|b|n|m ex|p|l|o]|];
    cbn [truthy].
  - intros [= <-]. reflexivity.
  - destruct b; [discriminate|]. intros [= <-]. reflexivity.
  - destruct (negb (n =? 0)%Z); [discriminate|]. intros [= <-]. reflexivity.
  - destruct (negb (m =? 0)%Z); [discriminate|]. intros [= <-]. reflexivity.
  - destruct p as [|c p]; cbn [is_empty negb].
    + intros [= <-].
      destruct (dict_get (lit "snippet") d) as [[]|]; reflexivity.
    + intros [= <-]. rewrite path_join_nonempty by discriminate.
      cbn [negb andb].
      destruct (isfile fs (path_join root (c :: p)));
        [|destruct (dict_get (lit "snippet") d) as [[]|]; reflexivity].
      destruct (read_text fs (path_join root (c :: p))) as [text|];
        destruct (dict_get (lit "snippet") d) as [[]|]; reflexivity.
  - destruct l; [|discriminate]. intros [= <-]. reflexivity.
  - destruct o; [|discriminate]. intros [= <-]. reflexivity.
  - intros [= <-]. reflexivity.
Qed.

Lemma verify_item_exact fs root ev ev' :
  verify_item fs root ev = Ok ev' -> verdict_exact fs root ev ev'.
Proof.
  intros H. destruct (verify_item_sets fs root ev ev' H)
    as (d & d' & fp & -> & -> & Hfp & Hflag).
  exists d, d'. repeat split.
  now rewrite <- (check_snippet_exact fs root d fp Hfp).
Qed.

(** X10. Whenever the verifier returns, on a report of any shape, the flag
    of every item is exactly the verdict of the test: true if and only if
    the cited path is a non-empty string that resolves to a readable file
    and the snippet is a string whose trimmed text is non-empty and occurs in
    the file. No item is ever verified without its snippet being in the
    file. *)
Theorem verify_evidence_exact fs root report report' :
  verify_evidence fs root report = Ok report' ->
  items_related (verdict_exact fs root) report report'.
Proof. apply verify_evidence_items. apply verify_item_exact. Qed.

Lemma verify_evidence_exact_round_trip :
  items_related (verdict_exact Scenario.fs Scenario.root)
    Scenario.round_trip Scenario.round_trip_verified.
Proof.
  apply (verify_evidence_exact Scenario.fs Scenario.root Scenario.round_trip
           Scenario.round_trip_verified).
  vm_compute. reflexivity.
Defined.

Lemma dict_frame_refl keys d : dict_frame keys d d.
Proof.
  repeat split. exists []. split; [now rewrite app_nil_r | intros k []].
Qed.

Lemma dict_frame_trans keys d1 d2 d3 :
  dict_frame keys d1 d2 -> dict_frame keys d2 d3 -> dict_frame keys d1 d3.
Proof.
  intros (Hg1 & Hw1 & a1 & Hk1 & Ha1) (Hg2 & Hw2 & a2 & Hk2 & Ha2).
  split; [|split].
  - intros k Hk. now rewrite Hg2, Hg1.
  - now rewrite Hw2.
  - exists (a1 ++ a2). split.
    + now rewrite Hk2, Hk1, app_assoc.
    + now apply incl_app.
Qed.

(** The assignment [d[k] = v] changes the entry of [k] and no other. *)
Lemma dict_set_frame keys k v d : In k keys -> dict_frame keys d (dict_set k v d).
Proof.
  intros Hk. split; [|split].
  - intros k' Hk'. apply dict_get_set_other. intros ->. contradiction.
  - assert (Hmem : str_mem k keys = true) by now apply str_mem_In.
    unfold without. induction d as [|[k0 v0] d IH]; cbn [dict_set filter fst].
    + now rewrite Hmem.
    + destruct (str_eqb_spec k k0) as [<-|Hne]; cbn [filter fst].
      * now rewrite Hmem.
      * now rewrite IH.
  - induction d as [|[k0 v0] d IH]; cbn [dict_set map fst].
    + exists [k]. split; [reflexivity|]. intros x [<-|[]]. exact Hk.
    + destruct (str_eqb_spec k k0) as [<-|Hne]; cbn [map fst].
      * exists []. split; [now rewrite app_nil_r | intros x []].
      * destruct IH as (added & E & Hadded). exists added.
        split; [now rewrite E | exact Hadded].
Qed.

Lemma mark_copy_frame d verified ev' :
  mark_copy d verified = Ok ev' ->
  exists d', ev' = JObj d' /\ dict_frame [lit "verified"; lit "note"] d d'.
Proof.
  unfold mark_copy. cbv zeta. destruct verified.
  - intros H. injection H as <-. eexists. split; [reflexivity|].
    apply dict_set_frame. now left.
  - destruct (add_str _ _); [simpl|discriminate].
    intros H. injection H as <-. eexists. split; [reflexivity|].
    eapply dict_frame_trans; apply dict_set_frame; [now left | right; now left].
Qed.

Lemma verify_item_frame fs root ev ev' :
  verify_item fs root ev = Ok ev' -> item_frame ev ev'.
Proof.
  unfold verify_item, item_frame.
  destruct ev as [| | | | | |d]; try discriminate. cbv zeta.
  destruct (full_path root _) as [fp|]; [simpl|discriminate].
  intros H. apply mark_copy_frame in H as (d' & -> & Hframe).
  exists d, d'. auto.
Qed.

Lemma verify_category_frame fs root e e' :
  verify_category fs root e = Ok e' -> category_frame e e'.
Proof.
  destruct e as [cat details]. unfold verify_category, category_frame.
  destruct details as [| | | | | |d]; try discriminate.
  destruct (iterate _) as [evs|]; [simpl|discriminate].
  destruct (mapM _ evs) as [new_evs|]; [simpl|discriminate].
  intros H. injection H as <-. simpl. split; [reflexivity|].
  do 2 eexists. split; [reflexivity|]. split; [reflexivity|].
  apply dict_set_frame. now left.
Qed.

(** X11. The verifier touches nothing but what it is there for: of the
    report only [criteria_scores] may change, of a category only
    [evidence], of an item only [verified] and [note]. Role, total score,
    summary, scores, justifications, paths and snippets are returned as they
    were parsed, in the same order: every key keeps its place, the
    categories and the items of each evidence list keep theirs, and a key
    that was missing is added after the others. *)
Theorem verify_evidence_frame fs root report report' :
  verify_evidence fs root report = Ok report' ->
  report_frame report report'
  /\ Forall2 category_frame (categories report) (categories report')
  /\ items_related item_frame report report'.
Proof.
  intros H. split; [|split].
  - unfold verify_evidence in H.
    destruct report as [| | | | | |r]; try discriminate.
    destruct (dict_get_default _ _ r) as [| | | | | |cs]; try discriminate.
    destruct (mapM _ cs) as [cs'|]; [simpl in H|discriminate].
    injection H as <-. do 2 eexists.
    split; [reflexivity|]. split; [reflexivity|].
    apply dict_set_frame. now left.
  - revert H.
    unfold verify_evidence, categories, dict_get_default.
    destruct report as [| | | | | |r]; try discriminate.
    destruct (dict_get (lit "criteria_scores") r) as [[| | | | | |cs]|];
      try discriminate.
    + destruct (mapM _ cs) as [cs'|] eqn:E; [simpl|discriminate].
      intros H. injection H as <-. rewrite dict_get_set_same.
      apply mapM_ok in E.
      induction E as [|e e' l l' Hee _ IH]; constructor; [|exact IH].
      now apply (verify_category_frame fs root).
    + simpl. intros H. injection H as <-. rewrite dict_get_set_same.
      constructor.
  - revert H. apply verify_evidence_items. apply verify_item_frame.
Qed.

Lemma verify_evidence_frame_round_trip :
  report_frame Scenario.round_trip Scenario.round_trip_verified
  /\ Forall2 category_frame (categories Scenario.round_trip)
       (categories Scenario.round_trip_verified)
  /\ items_related item_frame Scenario.round_trip
       Scenario.round_trip_verified.
Proof.
  apply (verify_evidence_frame Scenario.fs Scenario.root).
  vm_compute. reflexivity.
Defined.

(** X12. The verifier does not confine a citation to the project: for an
    item whose path starts with [/], [os.path.join] drops the project root,
    so the verdict is that of the absolute path itself, the same under every
    project root. *)
Theorem verify_item_absolute_path fs root root' d p :
  dict_get (lit "path") d = Some (JStr p) ->
  startswith [ch "/"] p = true ->
  verify_item fs root (JObj d) = verify_item fs root' (JObj d)
  /\ evidence_found fs root d
     = match dict_get (lit "snippet") d with
       | Some (JStr s) =>
           isfile fs p
           && match read_text fs p with
              | Some text =>
                  negb (is_empty (strip s)) && contains (strip s) text
              | None => false
              end
       | _ => false
       end.
Proof.
  intros Hp Habs.
  assert (Hjoin : forall r, path_join r p = p)
    by (intros r; unfold path_join; now rewrite Habs).
  split.
  - unfold verify_item, dict_get_default, full_path. cbv zeta.
    rewrite Hp. cbn [truthy]. now rewrite !Hjoin.
  - unfold evidence_found. rewrite Hp, Hjoin.
    destruct p; [discriminate|]. reflexivity.
Qed.

Lemma verify_item_absolute_path_outside :
  verify_item Cases.fs (lit "proj") (JObj Cases.outside_item)
  = verify_item Cases.fs (lit "other") (JObj Cases.outside_item)
  /\ evidence_found Cases.fs (lit "proj") Cases.outside_item
     = match dict_get (lit "snippet") Cases.outside_item with
       | Some (JStr s) =>
           isfile Cases.fs (lit "/etc/hostname")
           && match read_text Cases.fs (lit "/etc/hostname") with
              | Some text =>
                  negb (is_empty (strip s)) && contains (strip s) text
              | None => false
              end
       | _ => false
       end.
Proof.
  apply (verify_item_absolute_path Cases.fs (lit "proj") (lit "other")
           Cases.outside_item (lit "/etc/hostname"));
    reflexivity.
Defined.

(** ** Pipeline Orchestrator: order of the stages and failures *)

(** X13. With the formatter of CPython, [validate_project] returns for no
    input at all: an invalid role, unreadable criteria or, in every other
    case, the KeyError that [str.format] raises on the template ends the
    run, and the model is never called. *)
Theorem validate_project_never_calls_model w project_root criteria_path role :
  exists t e,
    validate_project Ref.lib w project_root criteria_path role = (t, Err e)
    /\ (forall prompt, ~ In (ModelCall prompt) t)
    /\ (forall criteria,
          In role ROLES ->
          read_criteria Ref.lib w criteria_path = Ok criteria ->
          e = KeyError ([nl] ++ lit "    ~role~")).
Proof.
  unfold validate_project.
  destruct (str_mem role ROLES) eqn:Erole; cbn [negb].
  - unfold io_bind, perform, silent.
    destruct (read_criteria Ref.lib w criteria_path) as [criteria|e0].
    + pose proof (build_prompt_ref_raises criteria role
                    (gather_files Ref.lib (Some INCLUDE_EXTS) 80 200000
                       (project_tree w project_root))) as Hp.
      destruct (build_prompt Ref.lib criteria role _) as [files prompt].
      cbn [snd] in Hp. subst prompt.
      do 2 eexists. split; [reflexivity|]. split.
      * intros prompt [H|[H|[]]]; discriminate H.
      * reflexivity.
    + do 2 eexists. split; [reflexivity|]. split.
      * intros prompt [H|[]]. discriminate H.
      * intros criteria _ H. discriminate H.
  - do 2 eexists. split; [reflexivity|]. split.
    + intros prompt [].
    + intros criteria Hin. apply str_mem_In in Hin. congruence.
Qed.

(** X14. Whatever the library functions do, the events of a run are an
    initial part of: criteria read, project walk, one model call, evidence
    check. There is at most one model call, none before the criteria are
    read and the files selected, and a run that returns has performed all
    four. *)
Theorem validate_project_trace L w project_root criteria_path role t r :
  validate_project L w project_root criteria_path role = (t, r) ->
  exists prompt n,
    t = firstn n (full_trace project_root criteria_path prompt)
    /\ (forall out, r = Ok out ->
                    t = full_trace project_root criteria_path prompt).
Proof.
  unfold validate_project, full_trace.
  destruct (negb _).
  { intros [= <- <-]. exists [], 0. split; [reflexivity | discriminate]. }
  unfold io_bind, perform, silent.
  destruct (read_criteria L w criteria_path) as [criteria|e0].
  2:{ intros [= <- <-]. exists [], 1. split; [reflexivity | discriminate]. }
  destruct (build_prompt L criteria role _) as [files [prompt|e0]].
  2:{ intros [= <- <-]. exists [], 2. split; [reflexivity | discriminate]. }
  destruct (call_gemini w prompt) as [raw|e0].
  2:{ intros [= <- <-]. exists prompt, 3. split; [reflexivity | discriminate]. }
  destruct (parse_response L raw) as [result|e0].
  2:{ intros [= <- <-]. exists prompt, 3. split; [reflexivity | discriminate]. }
  destruct (verify_evidence _ _ result) as [report|e0];
    intros [= <- <-]; exists prompt, 4; split; try reflexivity; discriminate.
Qed.

Lemma validate_project_trace_run :
  exists prompt n,
    [CriteriaRead (lit "criteria.json"); ProjectIO Scenario.root]
    = firstn n (full_trace Scenario.root (lit "criteria.json") prompt)
    /\ (forall out,
          (Err (KeyError ([nl] ++ lit "    ~role~")) : result outcome)
          = Ok out ->
          [CriteriaRead (lit "criteria.json"); ProjectIO Scenario.root]
          = full_trace Scenario.root (lit "criteria.json") prompt).
Proof.
  apply (validate_project_trace Ref.lib Scenario.world_of_run Scenario.root
           (lit "criteria.json") (lit "sde")).
  vm_compute. reflexivity.
Defined.

(** X15. A run of [validate_project] fails with the exception [e] after
    the events [t] exactly when one of its six stages failed, each on what
    the stages before it produced in this run: the role is rejected with
    the ValueError of line 173 before any event; reading the criteria
    raises [e]; [build_prompt] raises [e] on these criteria and the gathered
    files; the model call raises [e] on that prompt; the parser raises its
    diagnostic RuntimeError on that reply; or the verifier raises [e] on the
    report parsed from it. But for the parser's, the exception that reaches
    the caller is the one the stage raised. *)
Theorem validate_project_failure L w project_root criteria_path role t e :
  validate_project L w project_root criteria_path role = (t, Err e)
  <-> failed_stage L w project_root criteria_path role t e.
Proof.
  split.
  - unfold validate_project.
    destruct (str_mem role ROLES) eqn:Erole; cbn [negb].
    2:{ intros [= <- <-]. now apply RoleRejected. }
    unfold io_bind, perform, silent.
    destruct (read_criteria L w criteria_path) as [criteria|e0] eqn:Ec.
    2:{ intros [= <- <-]. now apply CriteriaFailed. }
    fold (gathered L w project_root).
    destruct (build_prompt L criteria role (gathered L w project_root))
      as [files [prompt|e0]] eqn:Ep.
    2:{ intros [= <- <-]. eapply PromptFailed; try eassumption;
          [now rewrite Ep | reflexivity]. }
    destruct (call_gemini w prompt) as [raw|e0] eqn:Eg.
    2:{ intros [= <- <-]. eapply ModelFailed; try eassumption;
          [now rewrite Ep | reflexivity]. }
    destruct (parse_response L raw) as [result|e0] eqn:Er.
    2:{ intros [= <- <-].
        destruct (parse_response_raises L raw e0 Er) as (msg & Hmsg & He & _).
        eapply ParseFailed; try eassumption; [now rewrite Ep | reflexivity]. }
    destruct (verify_evidence _ _ result) as [report|e0] eqn:Ev;
      intros [= <- <-].
    eapply VerifierFailed; try eassumption; [now rewrite Ep | reflexivity].
  - unfold validate_project, full_trace.
    intros [Hrole -> ->
           |Hrole Hc ->
           |criteria Hrole Hc Hp ->
           |criteria prompt Hrole Hc Hp Hg ->
           |criteria prompt raw msg Hrole Hc Hp Hg Hr _ _ ->
           |criteria prompt raw parsed Hrole Hc Hp Hg Hr Hv ->];
      rewrite Hrole; cbn [negb]; try reflexivity;
      unfold io_bind, perform, silent; rewrite Hc; try reflexivity;
      fold (gathered L w project_root);
      destruct (build_prompt L criteria role (gathered L w project_root))
        as [files p]; cbn [snd] in Hp; subst p; try reflexivity;
      rewrite Hg; try reflexivity;
      rewrite Hr; try reflexivity;
      rewrite Hv; reflexivity.
Qed.

Lemma validate_project_failure_no_criteria :
  failed_stage Ref.lib Cases.no_criteria Scenario.root (lit "criteria.json")
    (lit "sde") [CriteriaRead (lit "criteria.json")] OSError.
Proof.
  apply (proj1 (validate_project_failure Ref.lib Cases.no_criteria
                  Scenario.root (lit "criteria.json") (lit "sde")
                  [CriteriaRead (lit "criteria.json")] OSError)).
  vm_compute. reflexivity.
Defined.

(** ** Evidence Verifier: a second run *)

Lemma dict_set_present k v d : dict_get k d = Some v -> dict_set k v d = d.
Proof.
  induction d as [|[k' v'] d IH]; simpl; [discriminate|].
  destruct (str_eqb_spec k k') as [->|Hne].
  - now intros [= ->].
  - intros H. now rewrite IH.
Qed.

Lemma str_or_absent_set_other k k' v d :
  k <> k' -> str_or_absent k (dict_set k' v d) = str_or_absent k d.
Proof.
  intros H. unfold str_or_absent. now rewrite dict_get_set_other.
Qed.

Lemma item_shape_annotate fs root ev :
  item_shape ev = true -> item_shape (annotate fs root ev) = true.
Proof.
  destruct ev as [| | | | | |d]; try discriminate.
  unfold item_shape, annotate, annotate_item. intros H.
  apply andb_prop in H as [H Hn]. apply andb_prop in H as [Hp Hs].
  destruct (evidence_found fs root d).
  - rewrite !str_or_absent_set_other by discriminate.
    now rewrite Hp, Hs, Hn.
  - rewrite !(str_or_absent_set_other (lit "path")),
      !(str_or_absent_set_other (lit "snippet")) by discriminate.
    rewrite Hp, Hs. unfold str_or_absent at 1.
    now rewrite dict_get_set_same.
Qed.

Lemma evidence_found_annotate fs root d :
  evidence_found fs root (annotate_item fs root d) = evidence_found fs root d.
Proof.
  assert (Hk : forall k, k <> lit "verified" -> k <> lit "note" ->
                 dict_get k (annotate_item fs root d) = dict_get k d).
  { intros k Hv Hn. unfold annotate_item.
    destruct (evidence_found fs root d);
      now rewrite ?dict_get_set_other by assumption. }
  unfold evidence_found. now rewrite !Hk by discriminate.
Qed.

Lemma lstrip_head s :
  lstrip s = [] \/ exists c t, lstrip s = c :: t /\ is_space c = false.
Proof.
  induction s as [|c s IH]; simpl; [now left|].
  destruct (is_space c) eqn:E; [exact IH|]. right. now exists c, s.
Qed.

(** A note that already carries the marker gets it once more, unchanged
    otherwise. *)
Lemma strip_not_found_again n :
  strip (strip (n ++ NOT_FOUND) ++ NOT_FOUND)
  = strip (n ++ NOT_FOUND) ++ NOT_FOUND.
Proof.
  rewrite (strip_not_found n).
  rewrite (strip_not_found (lstrip (n ++ [32%N]) ++ MARKER)).
  change NOT_FOUND with ([32%N] ++ MARKER). rewrite (app_assoc _ [32%N]).
  f_equal.
  destruct (lstrip_head (n ++ [32%N])) as [->|(c & t & -> & Hc)].
  - reflexivity.
  - cbn [app lstrip]. now rewrite Hc.
Qed.

Lemma annotate_twice fs root d :
  let d1 := annotate_item fs root d in
  (dict_get (lit "verified") d1 = Some (JBool true) \/
   dict_get (lit "verified") d1 = Some (JBool false))
  /\ (dict_get (lit "verified") d1 = Some (JBool true) ->
      annotate_item fs root d1 = d1)
  /\ (dict_get (lit "verified") d1 = Some (JBool false) ->
      annotate_item fs root d1
      = dict_set (lit "note") (JStr (note_text d1 ++ NOT_FOUND)) d1).
Proof.
  intros d1.
  assert (Hflag : dict_get (lit "verified") d1
                  = Some (JBool (evidence_found fs root d))).
  { unfold d1, annotate_item. destruct (evidence_found fs root d).
    - apply dict_get_set_same.
    - rewrite dict_get_set_other by discriminate. apply dict_get_set_same. }
  assert (Hnote : evidence_found fs root d = false ->
                  note_text d1 = strip (note_text d ++ NOT_FOUND)).
  { intros E. unfold d1, annotate_item. rewrite E. unfold note_text at 1.
    now rewrite dict_get_set_same. }
  assert (Hagain : annotate_item fs root d1
                   = if evidence_found fs root d
                     then dict_set (lit "verified") (JBool true) d1
                     else dict_set (lit "note")
                            (JStr (strip (note_text d1 ++ NOT_FOUND)))
                            (dict_set (lit "verified") (JBool false) d1)).
  { unfold annotate_item at 1. unfold d1 at 1.
    now rewrite evidence_found_annotate. }
  rewrite Hagain, Hflag. clear Hagain.
  destruct (evidence_found fs root d) eqn:E.
  - split; [now left|]. split; [|discriminate].
    intros _. now apply dict_set_present.
  - split; [now right|]. split; [discriminate|].
    intros _. rewrite (dict_set_present _ _ _ Hflag).
    f_equal. f_equal. rewrite (Hnote eq_refl).
    apply strip_not_found_again.
Qed.

Lemma Forall2_chain {A B C} (P : A -> B -> Prop) (Q : B -> C -> Prop) l0 l1 :
  Forall2 P l0 l1 ->
  forall l2, Forall2 Q l1 l2 ->
             Forall2 (fun y z => (exists x, P x y) /\ Q y z) l1 l2.
Proof.
  induction 1 as [|x y l0 l1 Hxy _ IH]; intros l2 H2;
    inversion H2; subst; constructor; eauto.
Qed.

(** The shape of the data model is kept by the verifier. *)
Lemma verify_evidence_keeps_shape fs root report report1 :
  report_shape report = true ->
  verify_evidence fs root report = Ok report1 ->
  report_shape report1 = true.
Proof.
  unfold report_shape, verify_evidence, dict_get_default.
  destruct report as [| | | | | |r]; try discriminate.
  destruct (dict_get (lit "criteria_scores") r) as [[| | | | | |cs]|];
    try discriminate; intros Hshape.
  - destruct (mapM _ cs) as [cs'|] eqn:E; [simpl|discriminate].
    intros H. injection H as <-. rewrite dict_get_set_same.
    apply mapM_ok in E. apply forallb_forall. intros e' He'.
    rewrite forallb_forall in Hshape.
    induction E as [|e e0 l l' Hee _ IH]; [contradiction|].
    destruct He' as [->|He'].
    2:{ apply IH; [|exact He']. intros x Hx. apply Hshape. now right. }
    assert (Hsh : category_shape e = true) by (apply Hshape; now left).
    destruct (verify_category_shaped fs root e Hsh)
      as (e'' & Hrun & _ & Hev & Hitems).
    rewrite Hrun in Hee. injection Hee as ->.
    destruct (verify_category_ok fs root e e' Hrun) as (d & evs & Hd & Hevs & _).
    unfold category_shape. rewrite Hd, Hevs.
    unfold evidence_of in Hev at 1. rewrite Hd, Hevs in Hev. subst evs.
    apply forallb_forall. intros ev Hin. apply in_map_iff in Hin as (ev0 & <- & Hin).
    apply item_shape_annotate.
    rewrite forallb_forall in Hitems. now apply Hitems.
  - simpl. intros H. injection H as <-. now rewrite dict_get_set_same.
Qed.

(** X16. The verifier is not idempotent, but its verdicts are stable: run
    again on a report it has verified, it returns every verified item
    unchanged and every unverified item with [verified] still false and the
    marker appended once more to its note. *)
Theorem verify_evidence_twice fs root report report1 :
  report_shape report = true ->
  verify_evidence fs root report = Ok report1 ->
  exists report2,
    verify_evidence fs root report1 = Ok report2
    /\ items_related reverified report1 report2.
Proof.
  intros Hshape Hrun.
  destruct (verify_evidence_shaped fs root report Hshape)
    as (report1' & Hrun' & Hrel1).
  rewrite Hrun in Hrun'. injection Hrun' as <-.
  pose proof (verify_evidence_keeps_shape fs root report report1 Hshape Hrun)
    as Hshape1.
  destruct (verify_evidence_shaped fs root report1 Hshape1)
    as (report2 & Hrun2 & Hrel2).
  exists report2. split; [exact Hrun2|].
  unfold items_related in *.
  pose proof (Forall2_chain _ _ _ _ Hrel1 _ Hrel2) as H.
  clear Hrel1 Hrel2.
  induction H as [|e1 e2 l1 l2 [(e0 & _ & Hev01) (Hk & Hev12)] _ IH];
    constructor; [|exact IH].
  split; [exact Hk|].
  pose proof (Forall2_chain _ _ _ _ Hev01 _ Hev12) as Hitems.
  clear Hev01 Hev12.
  induction Hitems as [|ev1 ev2 k1 k2 [(ev0 & Hsh0 & ->) (_ & ->)] _ IHi];
    constructor; [|exact IHi].
  destruct ev0 as [| | | | | |d]; try discriminate.
  cbn [annotate]. exists (annotate_item fs root d).
  destruct (annotate_twice fs root d) as (Hflag & Htrue & Hfalse).
  split; [reflexivity|]. split; [exact Hflag|]. split.
  - intros H. now rewrite Htrue.
  - intros H. now rewrite Hfalse.
Qed.

Lemma verify_evidence_twice_round_trip :
  exists report2,
    verify_evidence Scenario.fs Scenario.root Scenario.round_trip_verified
    = Ok report2
    /\ items_related reverified Scenario.round_trip_verified report2.
Proof.
  apply (verify_evidence_twice Scenario.fs Scenario.root Scenario.round_trip
           Scenario.round_trip_verified);
    vm_compute; reflexivity.
Defined.

(* ===================================================================== *)
(** * app.py *)
(* ===================================================================== *)

(** ** Splitting at a separator *)

Lemma split_nonempty sep s : App.split sep s <> [].
Proof.
  induction s as [|x s IH]; simpl; [discriminate|].
  destruct (N.eqb x sep); [discriminate|].
  destruct (App.split sep s); discriminate.
Qed.

Lemma split_pieces sep s : Forall (fun p => ~ In sep p) (App.split sep s).
Proof.
  induction s as [|x s IH]; simpl.
  - constructor; [intros [] | constructor].
  - destruct (N.eqb_spec x sep) as [->|Hne].
    + constructor; [intros [] | exact IH].
    + destruct (App.split sep s) as [|p ps].
      * constructor; [|constructor]. intros [E|[]]. congruence.
      * inversion IH as [|? ? Hp Hps]; subst.
        constructor; [|assumption]. intros [E|Hin]; [congruence | tauto].
Qed.

Lemma split_app sep a b :
  App.split sep (a ++ sep :: b) = App.split sep a ++ App.split sep b.
Proof.
  induction a as [|x a IH]; simpl.
  - now rewrite N.eqb_refl.
  - destruct (N.eqb x sep); [now rewrite IH|].
    rewrite IH. pose proof (split_nonempty sep a) as Hne.
    destruct (App.split sep a); [congruence | reflexivity].
Qed.

Lemma split_solid sep s : ~ In sep s -> App.split sep s = [s].
Proof.
  induction s as [|x s IH]; simpl; intros H; [reflexivity|].
  destruct (N.eqb_spec x sep) as [->|Hne]; [exfalso; apply H; now left|].
  rewrite IH; [reflexivity|]. intros Hin. apply H. now right.
Qed.

Lemma split_join sep items :
  items <> [] ->
  Forall (fun p => ~ In sep p) items ->
  App.split sep (join [sep] items) = items.
Proof.
  induction items as [|p [|q rest] IH]; intros Hne Hall; [congruence| |].
  - inversion Hall; subst. now apply split_solid.
  - inversion Hall as [|? ? Hp Hrest]; subst.
    change (join [sep] (p :: q :: rest))
      with (p ++ sep :: join [sep] (q :: rest)).
    rewrite split_app, (split_solid sep p Hp), IH; [reflexivity | discriminate | assumption].
Qed.

Lemma last_Forall {A} (P : A -> Prop) l d : P d -> Forall P l -> P (last l d).
Proof.
  intros Hd. induction l as [|x [|y l] IH]; intros H; [exact Hd | |].
  - now inversion H.
  - inversion H; subst. now apply IH.
Qed.

(** ** Trailing slashes *)

Lemma rstrip_char_all c n : App.rstrip_char c (repeat c n) = [].
Proof. induction n as [|n IH]; simpl; [reflexivity|]. now rewrite IH, N.eqb_refl. Qed.

Lemma rstrip_char_trailing c s n :
  App.rstrip_char c (s ++ repeat c n) = App.rstrip_char c s.
Proof.
  induction s as [|x s IH]; simpl; [apply rstrip_char_all|]. now rewrite IH.
Qed.

Lemma rstrip_char_solid c s x :
  x <> c -> App.rstrip_char c (s ++ [x]) = s ++ [x].
Proof.
  intros Hx. induction s as [|y s IH]; simpl.
  - now destruct (N.eqb_spec x c).
  - rewrite IH. destruct (s ++ [x]) eqn:E; [|reflexivity].
    now destruct s.
Qed.

(** ** The folder of a repository *)

Lemma startswith_slash_solid s :
  ~ In (ch "/") s -> startswith [ch "/"] s = false.
Proof.
  destruct s as [|x s]; [reflexivity|]. intros H. cbn [startswith].
  destruct (N.eqb_spec (ch "/") x) as [E|Hne]; [|reflexivity].
  exfalso. apply H. left. now symmetry.
Qed.

(** X17. The name taken from a URL never contains a slash, so the folder a
    repository is extracted to is [./extracted/] followed by that name,
    whatever the URL. *)
Theorem extract_path_direct_child repo_url :
  ~ In (ch "/") (App.get_repo_name_from_url repo_url)
  /\ App.extract_path_of repo_url
     = App.EXTRACT_FOLDER ++ [ch "/"] ++ App.get_repo_name_from_url repo_url.
Proof.
  assert (H : ~ In (ch "/") (App.get_repo_name_from_url repo_url)).
  { unfold App.get_repo_name_from_url.
    apply (last_Forall (fun p => ~ In (ch "/") p)); [intros [] | apply split_pieces]. }
  split; [exact H|].
  unfold App.extract_path_of, path_join.
  rewrite (startswith_slash_solid _ H).
  change (is_empty App.EXTRACT_FOLDER || endswith [ch "/"] App.EXTRACT_FOLDER)
    with false.
  reflexivity.
Qed.

(** X18. The name of a repository is the last component of its URL, any
    number of trailing slashes left aside; nothing more is asked of it, so a
    URL that ends in [/..] names the folder [..]. *)
Theorem repo_name_last_component base name n :
  name <> [] ->
  ~ In (ch "/") name ->
  App.get_repo_name_from_url
    (base ++ [ch "/"] ++ name ++ repeat (ch "/") n) = name.
Proof.
  intros Hne Hname. unfold App.get_repo_name_from_url.
  replace (base ++ [ch "/"] ++ name ++ repeat (ch "/") n)
    with ((base ++ [ch "/"] ++ name) ++ repeat (ch "/") n)
    by now rewrite <- !app_assoc.
  rewrite rstrip_char_trailing.
  destruct (exists_last Hne) as (name' & x & ->).
  assert (Hx : x <> ch "/").
  { intros ->. apply Hname, in_or_app. right. now left. }
  replace (base ++ [ch "/"] ++ name' ++ [x])
    with ((base ++ [ch "/"] ++ name') ++ [x])
    by now rewrite <- !app_assoc.
  rewrite (rstrip_char_solid _ _ _ Hx).
  rewrite <- !app_assoc. cbn [app].
  rewrite split_app, (split_solid _ _ Hname).
  apply last_last.
Qed.

Lemma repo_name_last_component_parent :
  App.get_repo_name_from_url (lit "https://github.com/user/..//") = lit ".."
  /\ App.extract_path_of (lit "https://github.com/user/..//")
     = lit "./extracted/..".
Proof.
  split; [|vm_compute; reflexivity].
  apply (repo_name_last_component (lit "https://github.com/user") (lit "..") 2).
  - discriminate.
  - vm_compute. intuition discriminate.
Defined.

(** ** The required items *)

Lemma rstrip_idempotent s : rstrip (rstrip s) = rstrip s.
Proof.
  induction s as [|c s IH]; [reflexivity|]. cbn [rstrip].
  destruct (rstrip s) as [|y t] eqn:E.
  - destruct (is_space c) eqn:Ec; [reflexivity|]. cbn [rstrip]. now rewrite Ec.
  - change (rstrip (c :: y :: t))
      with (match rstrip (y :: t) with
            | [] => if is_space c then [] else [c]
            | r => c :: r
            end).
    now rewrite IH.
Qed.

Lemma strip_idempotent s : strip (strip s) = strip s.
Proof.
  unfold strip.
  destruct (lstrip_head s) as [E|(c & t & E & Hc)]; rewrite E; [reflexivity|].
  rewrite (rstrip_cons_solid c t Hc). cbn [lstrip]. rewrite Hc.
  rewrite (rstrip_cons_solid c (rstrip t) Hc). now rewrite rstrip_idempotent.
Qed.

(** X19. Every required item is clean: not empty, without white space
    around it and without a comma, whatever was typed. *)
Theorem required_items_clean required_input :
  Forall clean_item (App.required_items_of required_input).
Proof.
  unfold App.required_items_of.
  pose proof (split_pieces (ch ",") required_input) as Hp.
  induction Hp as [|p ps Hp Hps IH]; cbn [filter map]; [constructor|].
  destruct (strip p) as [|c t] eqn:E; cbn [is_empty negb]; [exact IH|].
  cbn [map]. constructor; [|exact IH].
  rewrite E. repeat split.
  - discriminate.
  - rewrite <- E. apply strip_idempotent.
  - intros Hin. apply Hp. apply In_strip. now rewrite E.
Qed.

(** X20. Clean items joined with commas are read back as they were, in
    order and with their repetitions. *)
Theorem required_items_round_trip items :
  Forall clean_item items ->
  App.required_items_of (join [ch ","] items) = items.
Proof.
  intros Hall. unfold App.required_items_of.
  destruct items as [|p rest]; [reflexivity|].
  rewrite split_join.
  - induction Hall as [|q qs (Hne & Hs & _) Hqs IH]; [reflexivity|].
    cbn [filter]. rewrite Hs.
    destruct q as [|c t]; [congruence|]. cbn [is_empty negb map].
    now rewrite Hs, IH.
  - discriminate.
  - eapply Forall_impl; [|exact Hall]. now intros q (_ & _ & H).
Qed.

Lemma required_items_round_trip_readme :
  App.required_items_of (lit "README.md,src,README.md")
  = [lit "README.md"; lit "src"; lit "README.md"].
Proof.
  apply (required_items_round_trip
           [lit "README.md"; lit "src"; lit "README.md"]).
  repeat constructor; try discriminate; vm_compute; intuition discriminate.
Defined.

(** ** The members of the archive *)

Lemma skipn_past {A} (a : list A) x b : skipn (S (length a)) (a ++ x :: b) = b.
Proof. induction a as [|y a IH]; [reflexivity | exact IH]. Qed.

Lemma member_path_rest top rest :
  ~ In (ch "/") top -> App.member_path (top ++ ch "/" :: rest) = rest.
Proof.
  intros Htop. unfold App.member_path, App.split_once.
  rewrite (index_app_first _ _ _ Htop). apply skipn_past.
Qed.

(** X21. The top folder of an archive member is dropped and the rest kept
    as it is, further slashes included; a member without a slash keeps its
    name. *)
Theorem member_path_drops_top_folder top rest :
  ~ In (ch "/") top ->
  App.member_path (top ++ [ch "/"] ++ rest) = rest
  /\ App.member_path top = top.
Proof.
  intros Htop. split; [now apply member_path_rest|].
  unfold App.member_path, App.split_once.
  apply index_none in Htop. now rewrite Htop.
Qed.

Lemma member_path_drops_top_folder_main :
  App.member_path (lit "repo-main/src/app.py") = lit "src/app.py"
  /\ App.member_path (lit "repo-main") = lit "repo-main".
Proof.
  apply (member_path_drops_top_folder (lit "repo-main") (lit "src/app.py")).
  vm_compute. intuition discriminate.
Defined.

(** X22. Where a member is written is not confined to the extraction
    folder: when what follows the top folder starts with a slash, the target
    is that absolute path, whatever the extraction folder. *)
Theorem target_path_absolute extract_path top rest :
  ~ In (ch "/") top ->
  App.target_path extract_path (top ++ [ch "/"] ++ [ch "/"] ++ rest)
  = [ch "/"] ++ rest.
Proof.
  intros Htop. unfold App.target_path. cbn [app].
  rewrite (member_path_rest top (ch "/" :: rest) Htop).
  unfold path_join. cbn [startswith]. now rewrite N.eqb_refl.
Qed.

Lemma target_path_absolute_cron :
  App.target_path (lit "./extracted/repo") (lit "repo-main//etc/cron.d/job")
  = lit "/etc/cron.d/job".
Proof.
  apply (target_path_absolute (lit "./extracted/repo") (lit "repo-main")
           (lit "etc/cron.d/job")).
  vm_compute. intuition discriminate.
Defined.

(** ** The route of the analysis *)

Lemma validate_project_walks L w project_root criteria_path role p :
  In (ProjectIO p)
     (fst (validate_project L w project_root criteria_path role)) ->
  p = project_root.
Proof.
  unfold validate_project.
  destruct (negb _); [intros []|].
  unfold io_bind, perform, silent.
  destruct (read_criteria L w criteria_path) as [criteria|e0].
  2:{ intros [H|[]]. discriminate H. }
  destruct (build_prompt L criteria role _) as [files [prompt|e0]].
  2:{ intros [H|[H|[]]]; [discriminate H | now injection H]. }
  destruct (call_gemini w prompt) as [raw|e0].
  2:{ intros [H|[H|[H|[]]]]; [discriminate H | now injection H | discriminate H]. }
  destruct (parse_response L raw) as [result|e0].
  2:{ intros [H|[H|[H|[]]]]; [discriminate H | now injection H | discriminate H]. }
  destruct (verify_evidence _ _ result) as [report|e0];
    intros [H|[H|[H|[H|[]]]]];
    try discriminate H; now injection H.
Qed.

(** X23. The analysis never looks at the repository that the request
    names: the only project root it walks and hands to the verifier is the
    directory of the application itself. *)
Theorem validate_ai_walks_app_dir L w srv form p :
  In (ProjectIO p) (fst (App.validate_ai L w srv form)) ->
  p = App.app_dir srv.
Proof.
  unfold App.validate_ai. cbv zeta.
  destruct (is_empty _); [intros []|].
  destruct (negb (App.isdir srv _)); [intros []|].
  destruct (negb (is_empty _)); [intros []|].
  pose proof (validate_project_walks L w (App.app_dir srv)
                (lit "criteria.json")
                (strip (App.form_get (lit "role") (lit "intern") form)) p)
    as Hw.
  destruct (validate_project L w _ _ _) as [t [res|e]]; exact Hw.
Qed.

Lemma validate_ai_walks_app_dir_repo :
  In (ProjectIO (lit "/srv/app"))
     (fst (App.validate_ai Ref.lib Scenario.world_of_run Cases.srv
             Cases.form_repo))
  /\ lit "/srv/app" = App.app_dir Cases.srv.
Proof.
  assert (H : In (ProjectIO (lit "/srv/app"))
                 (fst (App.validate_ai Ref.lib Scenario.world_of_run
                         Cases.srv Cases.form_repo))).
  { vm_compute. right. left. reflexivity. }
  split; [exact H|].
  exact (validate_ai_walks_app_dir Ref.lib Scenario.world_of_run Cases.srv
           Cases.form_repo (lit "/srv/app") H).
Defined.

(** X24. With the formatter of CPython the route never renders a report:
    every request is answered by a redirect with a flashed message of
    category danger, or ends in the NameError of [base_root]. *)
Theorem validate_ai_never_renders w srv form :
  exists t,
    (exists endpoint flash,
        App.validate_ai Ref.lib w srv form
        = (t, App.Redirect endpoint flash (lit "danger")))
    \/ App.validate_ai Ref.lib w srv form
       = (t, App.NameError (lit "base_root")).
Proof.
  unfold App.validate_ai. cbv zeta.
  destruct (is_empty _); [exists []; left; now do 2 eexists|].
  destruct (negb (App.isdir srv _)); [exists []; left; now do 2 eexists|].
  destruct (negb (is_empty _)); [exists []; now right|].
  set (role := strip (App.form_get (lit "role") (lit "intern") form)).
  unfold validate_project.
  destruct (negb (str_mem role ROLES)).
  { exists []. left. now do 2 eexists. }
  unfold io_bind, perform, silent.
  destruct (read_criteria Ref.lib w (lit "criteria.json")) as [criteria|e0].
  2:{ eexists. left. now do 2 eexists. }
  pose proof (build_prompt_ref_raises criteria role
                (gather_files Ref.lib (Some INCLUDE_EXTS) 80 200000
                   (project_tree w (App.app_dir srv)))) as Hp.
  destruct (build_prompt Ref.lib criteria role _) as [files prompt].
  cbn [snd] in Hp. subst prompt.
  eexists. left. now do 2 eexists.
Qed.

(** X25. A request that names a subfolder is never analysed: it is sent
    back to the upload page, or it ends in the NameError of [base_root];
    neither the criteria nor any project file is read. *)
Theorem validate_ai_subfolder_fails L w srv form :
  strip (App.form_get (lit "subfolder") [] form) <> [] ->
  App.validate_ai L w srv form = ([], App.NameError (lit "base_root"))
  \/ exists text,
       App.validate_ai L w srv form
       = ([], App.Redirect (lit "upload") (App.Message text) (lit "danger")).
Proof.
  intros Hsub. unfold App.validate_ai. cbv zeta.
  destruct (is_empty (strip (App.form_get (lit "repo_name") [] form)));
    [right; now eexists|].
  destruct (negb (App.isdir srv _)); [right; now eexists|].
  destruct (strip (App.form_get (lit "subfolder") [] form)); [congruence|].
  now left.
Qed.

Lemma validate_ai_subfolder_fails_src :
  App.validate_ai Ref.lib Scenario.world_of_run Cases.srv Cases.form_subfolder
  = ([], App.NameError (lit "base_root"))
  \/ exists text,
       App.validate_ai Ref.lib Scenario.world_of_run Cases.srv
         Cases.form_subfolder
       = ([], App.Redirect (lit "upload") (App.Message text) (lit "danger")).
Proof.
  apply (validate_ai_subfolder_fails Ref.lib Scenario.world_of_run Cases.srv
           Cases.form_subfolder).
  vm_compute. discriminate.
Defined.
